(** * teamspeak-channel-squatter: the configuration builder and the session

    A shallow embedding of [Bot] (the session with its channel guard) and of
    [Factory] (the configuration builder), and the properties of the design
    document stated over them.

    JavaScript values are a small tagged union; objects with a fixed shape
    are records; objects used as mappings (request payloads, responses,
    event payloads) are finite maps keyed by property name.  Code that can
    throw, and promise chains, run in a state-and-exception monad: a
    rejected promise and a thrown exception are both the left injection,
    [.then] is bind and [.catch] is [catch].  One promise chain is run to
    completion at a time; the interleaving of chains that belong to
    different events is outside the model. *)

From stdpp Require Import gmap strings list.
From Stdlib Require Import ZArith Ascii DecimalString.

(** ** JavaScript values *)

(** The primitive values and function objects that reach the module.
    Numbers are the integral ones and [NaN]; a function is known by
    reference. *)
Inductive JsValue : Type :=
  | JUndefined
  | JNull
  | JBool (b : bool)
  | JNum (z : Z)
  | JNaN
  | JStr (s : string)
  | JFun (ref : nat).

Global Instance JsValue_eq_dec : EqDecision JsValue.
Proof. solve_decision. Defined.

(** What [throw] carries and what a promise rejects with. *)
Inductive JsError : Type :=
  | Error (message : string)
  | TypeError (message : string)
  | QueryError (id : Z) (msg : string).

(** [a === b] *)
Definition strict_eq (a b : JsValue) : bool :=
  match a, b with
  | JUndefined, JUndefined => true
  | JNull, JNull => true
  | JBool x, JBool y => Bool.eqb x y
  | JNum x, JNum y => (x =? y)%Z
  | JStr x, JStr y => String.eqb x y
  | JFun x, JFun y => Nat.eqb x y
  | _, _ => false
  end.

(** SameValueZero, the comparison of lodash's collection functions: as
    [===] except that [NaN] equals itself. *)
Definition sameValueZero (a b : JsValue) : bool :=
  match a, b with
  | JNaN, JNaN => true
  | _, _ => strict_eq a b
  end.

(** [!!v] *)
Definition truthy (v : JsValue) : bool :=
  match v with
  | JUndefined | JNull | JNaN => false
  | JBool b => b
  | JNum z => negb (z =? 0)%Z
  | JStr s => negb (String.eqb s "")
  | JFun _ => true
  end.

(** ** lodash predicates *)

(** [_.isEmpty]: a string is empty when its length is 0; every other value
    of [JsValue] has no own enumerable property and no length, so it is
    empty. *)
Definition isEmpty (v : JsValue) : bool :=
  match v with
  | JStr s => Nat.eqb (String.length s) 0
  | _ => true
  end.

Definition isFunction (v : JsValue) : bool :=
  match v with JFun _ => true | _ => false end.

Definition isInteger (v : JsValue) : bool :=
  match v with JNum _ => true | _ => false end.

Definition isUndefined (v : JsValue) : bool :=
  match v with JUndefined => true | _ => false end.

(** The numeric value of a value for which [isInteger] holds. *)
Definition integer_value (v : JsValue) : Z :=
  match v with JNum z => z | _ => 0%Z end.

(** [Array.prototype.includes] under SameValueZero. *)
Definition includes (l : list JsValue) (x : JsValue) : bool :=
  existsb (sameValueZero x) l.

(** [_.intersection(a, b)]: the values of [a], in order and without
    repetition, that also occur in [b]. *)
Definition intersection (a b : list JsValue) : list JsValue :=
  fold_left
    (fun result x =>
       if negb (includes result x) && includes b x then result ++ [x] else result)
    a [].

(** ** Strings *)

(** [s.split(sep)] for a one-character separator. *)
Fixpoint split (sep : ascii) (s : string) : list string :=
  match s with
  | EmptyString => [EmptyString]
  | String c rest =>
      if Ascii.eqb c sep then EmptyString :: split sep rest
      else match split sep rest with
           | seg :: segs => String c seg :: segs
           | [] => [String c EmptyString]
           end
  end.

(** [l.join(sep)] for a one-character separator. *)
Fixpoint join (sep : ascii) (l : list string) : string :=
  match l with
  | [] => EmptyString
  | [seg] => seg
  | seg :: rest => seg +:+ String sep (join sep rest)
  end.

(** The character occurs in the string. *)
Fixpoint occurs (c : ascii) (s : string) : bool :=
  match s with
  | EmptyString => false
  | String c' rest => Ascii.eqb c' c || occurs c rest
  end.

(** ** Exceptions and promises *)

(** A computation over a state [S] that returns or throws.  A promise is
    such a computation: resolved is [inr], rejected is [inl]. *)
Definition M (S A : Type) : Type := S -> S * (JsError + A).

Global Instance M_ret {S} : MRet (M S) := fun A x s => (s, inr x).

Global Instance M_bind {S} : MBind (M S) := fun A B f m s =>
  match m s with
  | (s', inr x) => f x s'
  | (s', inl e) => (s', inl e)
  end.

Definition throw {S A} (e : JsError) : M S A := fun s => (s, inl e).

Definition get {S} : M S S := fun s => (s, inr s).

Definition modify {S} (f : S -> S) : M S unit := fun s => (f s, inr tt).

(** [p.catch(h)], and [try { p } catch (e) { h e }]. *)
Definition catch {S A} (p : M S A) (h : JsError -> M S A) : M S A := fun s =>
  match p s with
  | (s', inl e) => h e s'
  | r => r
  end.

(** A promise nobody waits for: its effects happen, its outcome is
    dropped (a rejection stays unhandled). *)
Definition detach {S A} (p : M S A) : M S unit := fun s => (fst (p s), inr tt).

(** [l.forEach(f)] *)
Fixpoint forEach {S A} (l : list A) (f : A -> M S unit) : M S unit :=
  match l with
  | [] => mret tt
  | x :: rest => f x ;; forEach rest f
  end.

(** Property access [o.k] on a mapping: a missing property is
    [undefined]. *)
Definition prop (o : gmap string JsValue) (k : string) : JsValue :=
  default JUndefined (o !! k).

(** ** Configuration slices *)

(** [{ username, password, botName }] *)
Record Credentials : Type := {
  username : JsValue;
  password : JsValue;
  botName : JsValue
}.

(** [{ address, queryPort, serverPort }] *)
Record ConnectionInfo : Type := {
  address : JsValue;
  queryPort : JsValue;
  serverPort : JsValue
}.

(** [{ success, noPerms }] *)
Record Actions : Type := {
  success : JsValue;
  noPerms : JsValue
}.

(** ** Bot: the session *)

Module Bot.

(** The fields of a [Bot] object.  [whoami] is [null] ([None]) until the
    handshake stores the response of the [whoami] query.  The query client
    of the constructor ([_client], [_send]) is the environment below. *)
Record t : Type := {
  _credentials : Credentials;
  _connectionInfo : ConnectionInfo;
  _channelId : JsValue;
  _allowedGroupIds : list JsValue;
  _actions : Actions;
  whoami : option (gmap string JsValue)
}.

(** [new Bot(credentials, connectionInfo, channelId, actions, allowedGroupIds)] *)
Definition new (credentials : Credentials) (connectionInfo : ConnectionInfo)
    (channelId : JsValue) (actions : Actions) (allowedGroupIds : list JsValue) : t :=
  {| _credentials := credentials;
     _connectionInfo := connectionInfo;
     _channelId := channelId;
     _allowedGroupIds := allowedGroupIds;
     _actions := actions;
     whoami := None |}.

(** One call of [_send(command, params, options)]; [options] is empty when
    the call site passes none. *)
Record Request : Type := {
  command : string;
  params : gmap string JsValue;
  options : list string
}.

(** An argument of [console.error]. *)
Inductive LogArg : Type :=
  | LStr (s : string)
  | LVal (v : JsValue)
  | LErr (e : JsError).

(** What the session does to the outside, in order. *)
Inductive Effect : Type :=
  | Listening (event : string)
  | Sent (req : Request)
  | Replied (outcome : JsError + gmap string JsValue)
  | Invoked (slot : string) (clid : JsValue)
  | ConsoleError (args : list LogArg)
  | SetInterval (delay : Z).

(** What an action callback does with the bot it is handed: the public
    operations it calls, in order, none of them waited for. *)
Inductive Call : Type :=
  | CallSendPoke (clid msg : JsValue)
  | CallSendMessage (clid message : JsValue)
  | CallKickClient (clid message : JsValue)
  | CallJoinChannel (cid clid password : JsValue).

(** A function object: its source text, and as an action callback
    [(bot, clid) => ...] the calls it makes and the exception it ends with,
    if any. *)
Record Closure : Type := {
  source : string;
  body : t -> JsValue -> list Call * option JsError
}.

(** The collaborators of a session: the query client, as a state machine
    that answers each request with a response mapping or an error, and
    the function objects. *)
Record Environment : Type := {
  NetState : Type;
  respond : NetState -> Request -> NetState * (JsError + gmap string JsValue);
  closure : nat -> Closure
}.

Existing Class Environment.

Section Session.

Context {E : Environment}.

(** The bot object, the query client and the effects so far. *)
Record World : Type := {
  this : t;
  net : NetState E;
  trace : list Effect
}.

Definition self : M World t := fun w => (w, inr (this w)).

Definition effect (e : Effect) : M World unit :=
  modify (fun w => {| this := this w; net := net w; trace := trace w ++ [e] |}).

(** [console.error(...args)] *)
Definition console_error (args : list LogArg) : M World unit :=
  effect (ConsoleError args).

(** [this._send(command, params, options)]: the request goes out, the
    promise settles with the answer of the query client. *)
Definition _send (command : string) (params : gmap string JsValue)
    (options : list string) : M World (gmap string JsValue) := fun w =>
  let req := {| command := command; params := params; options := options |} in
  let '(n, outcome) := respond E (net w) req in
  ({| this := this w; net := n; trace := trace w ++ [Sent req; Replied outcome] |},
   outcome).

(** [v.toString()].  A number prints in decimal (JavaScript does so below
    1e21). *)
Definition toString (v : JsValue) : M World string :=
  match v with
  | JUndefined => throw (TypeError "Cannot read property 'toString' of undefined")
  | JNull => throw (TypeError "Cannot read property 'toString' of null")
  | JBool b => mret (if b then "true" else "false")
  | JNum z => mret (NilZero.string_of_int (Z.to_int z))
  | JNaN => mret "NaN"
  | JStr s => mret s
  | JFun ref => mret (source (closure E ref))
  end.

(** [this.whoami.k] *)
Definition whoami_prop (k : string) : M World JsValue :=
  this ← self;
  match whoami this with
  | None => throw (TypeError "Cannot read property of null")
  | Some response => mret (prop response k)
  end.

Definition _login : M World (gmap string JsValue) :=
  this ← self;
  _send "login"
    {[ "client_login_name" := username (_credentials this);
       "client_login_password" := password (_credentials this) ]} [].

Definition _useServer : M World (gmap string JsValue) :=
  this ← self;
  _send "use" {[ "port" := serverPort (_connectionInfo this) ]} [].

Definition _notifyForEvents : M World (gmap string JsValue) :=
  this ← self;
  _send "servernotifyregister"
    {[ "event" := JStr "channel"; "id" := _channelId this ]} [].

Definition _changeName : M World (gmap string JsValue) :=
  this ← self;
  _send "clientupdate" {[ "client_nickname" := botName (_credentials this) ]} [].

Definition _whoami : M World unit :=
  response ← _send "whoami" ∅ [];
  modify (fun w =>
    {| this := {| _credentials := _credentials (this w);
                  _connectionInfo := _connectionInfo (this w);
                  _channelId := _channelId (this w);
                  _allowedGroupIds := _allowedGroupIds (this w);
                  _actions := _actions (this w);
                  whoami := Some response |};
       net := net w; trace := trace w |}).

Definition sendPoke (clid msg : JsValue) : M World (gmap string JsValue) :=
  _send "clientpoke" {[ "clid" := clid; "msg" := msg ]} [].

Definition kickClient (clid message : JsValue) : M World (gmap string JsValue) :=
  _send "clientkick"
    {[ "clid" := clid; "reasonid" := JNum 4; "reasonmsg" := message ]} [].

(** The payload of [joinChannel(cid, clid = this.whoami.client_id, password)]:
    the default of [clid] is read, and can throw, when the argument is
    [undefined]. *)
Definition joinChannel_payload (cid clid password : JsValue)
    : M World (gmap string JsValue) :=
  clid ← (if isUndefined clid then whoami_prop "client_id" else mret clid);
  let payload : gmap string JsValue := {[ "cid" := cid; "clid" := clid ]} in
  mret (if negb (isUndefined password)
        then <[ "password" := password ]> payload
        else payload).

Definition joinChannel (cid clid password : JsValue) : M World (gmap string JsValue) :=
  payload ← joinChannel_payload cid clid password;
  _send "clientmove" payload [].

Definition sendMessage (clid message : JsValue) : M World (gmap string JsValue) :=
  _send "sendtextmessage"
    {[ "target" := clid; "targetmode" := JNum 1; "msg" := message ]} [].

Definition _connect : M World (gmap string JsValue) :=
  _login ;;
  _useServer ;;
  _changeName ;;
  _whoami ;;
  this ← self;
  joinChannel (_channelId this) JUndefined JUndefined ;;
  _notifyForEvents.

(** The callback of [.then] in [_hasPermission]. *)
Definition _hasPermission_then (response : gmap string JsValue) : M World bool :=
  this ← self;
  s ← toString (prop response "client_servergroups");
  let groupIds := JStr <$> split ","%char s in
  mret (Nat.eqb (length (_allowedGroupIds this)) 0
        || Nat.ltb 0 (length (intersection (_allowedGroupIds this) groupIds))).

Definition _hasPermission (clid : JsValue) : M World bool :=
  response ← _send "clientinfo" {[ "clid" := clid ]} ["groups"];
  _hasPermission_then response.

(** [actions[key]] *)
Definition actions_get (actions : Actions) (key : string) : JsValue :=
  if String.eqb key "success" then success actions
  else if String.eqb key "noPerms" then noPerms actions
  else JUndefined.

(** One call made by an action callback.  The promise it returns is
    dropped; only reading the default of [clid] can throw into the
    callback. *)
Definition run_call (c : Call) : M World unit :=
  match c with
  | CallSendPoke clid msg => detach (sendPoke clid msg)
  | CallSendMessage clid message => detach (sendMessage clid message)
  | CallKickClient clid message => detach (kickClient clid message)
  | CallJoinChannel cid clid password =>
      payload ← joinChannel_payload cid clid password;
      detach (_send "clientmove" payload [])
  end.

(** [this._actions[key](this, clientId)] *)
Definition call_action (key : string) (clientId : JsValue) : M World unit :=
  this ← self;
  match actions_get (_actions this) key with
  | JFun ref =>
      effect (Invoked key clientId) ;;
      let '(calls, thrown) := body (closure E ref) this clientId in
      forEach calls run_call ;;
      match thrown with
      | Some e => throw e
      | None => mret tt
      end
  | _ => throw (TypeError "this._actions[...] is not a function")
  end.

(** The listener of [clientmoved].  The promise chain is not returned: the
    listener returns once the chain, ended by its [.catch], is set up. *)
Definition _onClientMove (moveEvent : gmap string JsValue) : M World unit :=
  this ← self;
  if negb (strict_eq (prop moveEvent "ctid") (_channelId this)) then mret tt
  else
    let clientId := prop moveEvent "clid" in
    me ← whoami_prop "client_id";
    if strict_eq clientId me then mret tt
    else
      detach
        (catch
           (allowed ← _hasPermission clientId;
            call_action (if allowed : bool then "success" else "noPerms") clientId)
           (fun err =>
              console_error
                [LStr "Error when running for client ID"; LVal clientId; LErr err])).

(** The listener of [cliententerview]; the result is the promise of the
    kick, when there is one. *)
Definition _onEnterView (viewEvent : gmap string JsValue) : M World unit :=
  this ← self;
  if negb (strict_eq (prop viewEvent "ctid") (_channelId this)) then mret tt
  else
    kickClient (prop viewEvent "clid") (JStr "Channel not allowed") ;; mret tt.

(** One run of the keep-alive timer. *)
Definition keepAlive : M World unit :=
  catch (_send "whoami" ∅ [] ;; mret tt) (fun err => console_error [LErr err]).

Definition start : M World unit :=
  effect (Listening "clientmoved") ;;
  effect (Listening "cliententerview") ;;
  _connect ;;
  effect (SetInterval 60000).

(** A notification of the query client. *)
Inductive Notification : Type :=
  | ClientMoved (moveEvent : gmap string JsValue)
  | ClientEnterView (viewEvent : gmap string JsValue).

(** The emitter calls the listener and ignores what it returns; an
    exception of the listener leaves the emitter. *)
Definition emit (n : Notification) : M World unit :=
  match n with
  | ClientMoved moveEvent => _onClientMove moveEvent
  | ClientEnterView viewEvent => detach (_onEnterView viewEvent)
  end.

(** The notifications are handled one after the other until a listener
    throws. *)
Fixpoint eventLoop (ns : list Notification) : M World unit :=
  match ns with
  | [] => mret tt
  | n :: rest => emit n ;; eventLoop rest
  end.

(** The request of a [_send], and the world after the request went out and
    was answered. *)
Definition request_of (command : string) (params : gmap string JsValue)
    (options : list string) : Request :=
  {| command := command; params := params; options := options |}.

Definition exchanged (w : World) (req : Request) : World :=
  {| this := this w;
     net := fst (respond E (net w) req);
     trace := trace w ++ [Sent req; Replied (snd (respond E (net w) req))] |}.

(** The bot's own client id, once [whoami] is stored. *)
Definition own_id (w : World) : JsValue :=
  match whoami (this w) with
  | Some response => prop response "client_id"
  | None => JUndefined
  end.

(** ** The handshake and the kicks, as the design document words them *)

(** The commands of the handshake, in order: login, select the server, set
    the name, whoami, move into the channel, register for notifications. *)
Definition handshake_commands : list string :=
  ["login"; "use"; "clientupdate"; "whoami"; "clientmove"; "servernotifyregister"].

(** The request was answered without error. *)
Definition answered (x : Request * (JsError + gmap string JsValue)) : bool :=
  match snd x with inr _ => true | inl _ => false end.

(** The effects of request/response exchanges made one after the other:
    each request is followed by its answer before the next one goes out. *)
Definition exchanges (log : list (Request * (JsError + gmap string JsValue)))
    : list Effect :=
  flat_map (fun x => [Sent (fst x); Replied (snd x)]) log.

(** What the query client answers to requests made one after the other,
    and the state it is left in. *)
Fixpoint converse (n : NetState E) (reqs : list Request)
    : list (Request * (JsError + gmap string JsValue)) * NetState E :=
  match reqs with
  | [] => ([], n)
  | req :: rest =>
      let '(n', outcome) := respond E n req in
      let '(log, n'') := converse n' rest in
      ((req, outcome) :: log, n'')
  end.

(** A kick request carries reason code 4. *)
Definition kick_coded (e : Effect) : Prop :=
  match e with
  | Sent req => command req = "clientkick" -> params req !! "reasonid" = Some (JNum 4)
  | _ => True
  end.

(** A computation only appends effects, all of them in [P]. *)
Definition appends (P : Effect -> Prop) {A} (m : M World A) : Prop :=
  forall w, exists added,
    trace (fst (m w)) = trace w ++ added /\ Forall P added.

(** The promise chain of [_onClientMove] before its [.catch]. *)
Definition guard_chain (clientId : JsValue) : M World unit :=
  allowed ← _hasPermission clientId;
  call_action (if allowed : bool then "success" else "noPerms") clientId.

(** The world once [console.error] has reported a failed chain. *)
Definition reported (w : World) (clientId : JsValue) (err : JsError) : World :=
  {| this := this w;
     net := net w;
     trace := trace w ++
       [ConsoleError [LStr "Error when running for client ID"; LVal clientId; LErr err]] |}.

(** ** The running session *)

(** A computation leaves a view [f] of the bot object as it was. *)
Definition keeps {X A} (f : t -> X) (m : M World A) : Prop :=
  forall w, f (this (fst (m w))) = f (this w).

(** The five configured fields of a bot. *)
Definition configuration (b : t)
    : Credentials * ConnectionInfo * JsValue * list JsValue * Actions :=
  (_credentials b, _connectionInfo b, _channelId b, _allowedGroupIds b, _actions b).

(** What happens to a started session: a notification of the query
    client, or the keep-alive timer firing. *)
Inductive Occurrence : Type :=
  | Notified (n : Notification)
  | Tick.

Definition occur (o : Occurrence) : M World unit :=
  match o with
  | Notified n => emit n
  | Tick => keepAlive
  end.

(** The occurrences are handled one after the other until one throws. *)
Fixpoint running (os : list Occurrence) : M World unit :=
  match os with
  | [] => mret tt
  | o :: rest => occur o ;; running rest
  end.

(** The six requests of the handshake of bot [b], the move naming the
    client id of the [whoami] answer [me]. *)
Definition handshake_requests (b : t) (me : gmap string JsValue) : list Request :=
  [ request_of "login"
      {[ "client_login_name" := username (_credentials b);
         "client_login_password" := password (_credentials b) ]} [];
    request_of "use" {[ "port" := serverPort (_connectionInfo b) ]} [];
    request_of "clientupdate" {[ "client_nickname" := botName (_credentials b) ]} [];
    request_of "whoami" ∅ [];
    request_of "clientmove"
      {[ "cid" := _channelId b; "clid" := prop me "client_id" ]} [];
    request_of "servernotifyregister"
      {[ "event" := JStr "channel"; "id" := _channelId b ]} [] ].

(** The effect is not the call of an action handler. *)
Definition no_invocation (e : Effect) : Prop :=
  match e with
  | Invoked _ _ => False
  | _ => True
  end.

(** The effect is neither a request nor an answer. *)
Definition no_exchange (e : Effect) : Prop :=
  match e with
  | Sent _ | Replied _ => False
  | _ => True
  end.

End Session.

Arguments World : clear implicits.

End Bot.

(** ** Factory: the configuration builder *)

Module Factory.

(** The three validators; every call site passes its own message. *)
Definition validateString {S} (it : JsValue) (message : string) : M S unit :=
  if isEmpty it then throw (Error message) else mret tt.

Definition validateFunction {S} (it : JsValue) (message : string) : M S unit :=
  if negb (isFunction it) then throw (Error message) else mret tt.

Definition validatePositiveInteger {S} (it : JsValue) (message : string) : M S unit :=
  if negb (isInteger it) || (integer_value it <=? 0)%Z
  then throw (Error message)
  else mret tt.

(** The fields of a [Factory] object; a field that was never assigned is
    [undefined] ([None], [JUndefined]). *)
Record t : Type := {
  _credentials : option Credentials;
  _actions : option Actions;
  _connectionInfo : option ConnectionInfo;
  _channelId : JsValue;
  _allowedGroupIds : option (list JsValue)
}.

(** [new Factory()] *)
Definition new : t :=
  {| _credentials := None;
     _actions := None;
     _connectionInfo := None;
     _channelId := JUndefined;
     _allowedGroupIds := None |}.

Definition withCredentials (username password botName : JsValue) : M t unit :=
  validateString username "Invalid username" ;;
  validateString password "Invalid password" ;;
  validateString botName "Invalid bot name" ;;
  modify (fun this =>
    {| _credentials :=
         Some {| username := username; password := password; botName := botName |};
       _actions := _actions this;
       _connectionInfo := _connectionInfo this;
       _channelId := _channelId this;
       _allowedGroupIds := _allowedGroupIds this |}).

Definition withActions (success noPerms : JsValue) : M t unit :=
  validateFunction success "Invalid success function" ;;
  validateFunction noPerms "Invalid noPerms function" ;;
  modify (fun this =>
    {| _credentials := _credentials this;
       _actions := Some {| success := success; noPerms := noPerms |};
       _connectionInfo := _connectionInfo this;
       _channelId := _channelId this;
       _allowedGroupIds := _allowedGroupIds this |}).

Definition withConnectionInfo (address queryPort serverPort : JsValue) : M t unit :=
  validateString address "Invalid address" ;;
  validatePositiveInteger queryPort "Invalid query port" ;;
  validatePositiveInteger serverPort "Invalid server port" ;;
  modify (fun this =>
    {| _credentials := _credentials this;
       _actions := _actions this;
       _connectionInfo :=
         Some {| address := address; queryPort := queryPort; serverPort := serverPort |};
       _channelId := _channelId this;
       _allowedGroupIds := _allowedGroupIds this |}).

Definition inChannel (channelId : JsValue) : M t unit :=
  validatePositiveInteger channelId "Invalid channel id" ;;
  modify (fun this =>
    {| _credentials := _credentials this;
       _actions := _actions this;
       _connectionInfo := _connectionInfo this;
       _channelId := channelId;
       _allowedGroupIds := _allowedGroupIds this |}).

(** [withAllowedGroups(groups = [])]: the argument is an array, as the
    documentation of the parameter has it, and [None] is the call without
    an argument. *)
Definition withAllowedGroups (groups : option (list JsValue)) : M t unit :=
  let groups := default [] groups in
  forEach groups (fun it => validatePositiveInteger it "Invalid group ID") ;;
  modify (fun this =>
    {| _credentials := _credentials this;
       _actions := _actions this;
       _connectionInfo := _connectionInfo this;
       _channelId := _channelId this;
       _allowedGroupIds := Some groups |}).

Definition build : M t Bot.t :=
  this ← get;
  match _credentials this with
  | None => throw (Error "Missing credentials")
  | Some credentials =>
  match _actions this with
  | None => throw (Error "Missing actions")
  | Some actions =>
  match _connectionInfo this with
  | None => throw (Error "Missing connection info")
  | Some connectionInfo =>
  if negb (truthy (_channelId this)) then throw (Error "Missing channel ID")
  else
  match _allowedGroupIds this with
  | None => throw (Error "Missing allowed groups")
  | Some allowedGroupIds =>
      mret (Bot.new credentials connectionInfo (_channelId this) actions allowedGroupIds)
  end end end end.

(** A call of one of the five setters. *)
Inductive Setter : Type :=
  | WithCredentials (username password botName : JsValue)
  | WithActions (success noPerms : JsValue)
  | WithConnectionInfo (address queryPort serverPort : JsValue)
  | InChannel (channelId : JsValue)
  | WithAllowedGroups (groups : option (list JsValue)).

Definition call (c : Setter) : M t unit :=
  match c with
  | WithCredentials username password botName => withCredentials username password botName
  | WithActions success noPerms => withActions success noPerms
  | WithConnectionInfo address queryPort serverPort =>
      withConnectionInfo address queryPort serverPort
  | InChannel channelId => inChannel channelId
  | WithAllowedGroups groups => withAllowedGroups groups
  end.

(** The values [validatePositiveInteger] lets through. *)
Definition positive_integer (it : JsValue) : bool :=
  isInteger it && (0 <? integer_value it)%Z.

(** Every argument of a setter call passes the validation of its
    parameter. *)
Definition valid_arguments (c : Setter) : bool :=
  match c with
  | WithCredentials username password botName =>
      negb (isEmpty username) && negb (isEmpty password) && negb (isEmpty botName)
  | WithActions success noPerms => isFunction success && isFunction noPerms
  | WithConnectionInfo address queryPort serverPort =>
      negb (isEmpty address) && positive_integer queryPort && positive_integer serverPort
  | InChannel channelId => positive_integer channelId
  | WithAllowedGroups groups => forallb positive_integer (default [] groups)
  end.

(** The builder once the arguments of a setter call are stored in their
    slice. *)
Definition assigned (c : Setter) (this : t) : t :=
  match c with
  | WithCredentials username password botName =>
      {| _credentials :=
           Some {| username := username; password := password; botName := botName |};
         _actions := _actions this;
         _connectionInfo := _connectionInfo this;
         _channelId := _channelId this;
         _allowedGroupIds := _allowedGroupIds this |}
  | WithActions success noPerms =>
      {| _credentials := _credentials this;
         _actions := Some {| success := success; noPerms := noPerms |};
         _connectionInfo := _connectionInfo this;
         _channelId := _channelId this;
         _allowedGroupIds := _allowedGroupIds this |}
  | WithConnectionInfo address queryPort serverPort =>
      {| _credentials := _credentials this;
         _actions := _actions this;
         _connectionInfo :=
           Some {| address := address; queryPort := queryPort; serverPort := serverPort |};
         _channelId := _channelId this;
         _allowedGroupIds := _allowedGroupIds this |}
  | InChannel channelId =>
      {| _credentials := _credentials this;
         _actions := _actions this;
         _connectionInfo := _connectionInfo this;
         _channelId := channelId;
         _allowedGroupIds := _allowedGroupIds this |}
  | WithAllowedGroups groups =>
      {| _credentials := _credentials this;
         _actions := _actions this;
         _connectionInfo := _connectionInfo this;
         _channelId := _channelId this;
         _allowedGroupIds := Some (default [] groups) |}
  end.

(** The configuration slice a setter assigns. *)
Inductive Slice : Type :=
  | SCredentials
  | SActions
  | SConnectionInfo
  | SChannelId
  | SAllowedGroups.

Global Instance Slice_eq_dec : EqDecision Slice.
Proof. solve_decision. Defined.

Definition slice_of (c : Setter) : Slice :=
  match c with
  | WithCredentials _ _ _ => SCredentials
  | WithActions _ _ => SActions
  | WithConnectionInfo _ _ _ => SConnectionInfo
  | InChannel _ => SChannelId
  | WithAllowedGroups _ => SAllowedGroups
  end.

(** A builder: a new factory on which setters were called, in order; a
    call that throws is given up and the next one is made on the same
    object. *)
Definition configure (calls : list Setter) : t :=
  fold_left (fun this c => fst (call c this)) calls new.

(** The call that set a slice: the last call of its setter with valid
    arguments, if there was one. *)
Definition last_set (s : Slice) (calls : list Setter) : option Setter :=
  find (fun c => bool_decide (slice_of c = s) && valid_arguments c) (rev calls).

(** What a slice of a builder holds, as the call that would store it. *)
Definition held (s : Slice) (this : t) : option Setter :=
  match s with
  | SCredentials =>
      c ← _credentials this; Some (WithCredentials (username c) (password c) (botName c))
  | SActions => a ← _actions this; Some (WithActions (success a) (noPerms a))
  | SConnectionInfo =>
      i ← _connectionInfo this;
      Some (WithConnectionInfo (address i) (queryPort i) (serverPort i))
  | SChannelId =>
      if isUndefined (_channelId this) then None else Some (InChannel (_channelId this))
  | SAllowedGroups => g ← _allowedGroupIds this; Some (WithAllowedGroups (Some g))
  end.

(** Setter calls up to the default of an omitted argument. *)
Definition explicit (c : Setter) : Setter :=
  match c with
  | WithAllowedGroups groups => WithAllowedGroups (Some (default [] groups))
  | _ => c
  end.

(** The order in which [build] looks at the slices, and what it throws
    for a slice that is not there. *)
Definition build_order : list Slice :=
  [SCredentials; SActions; SConnectionInfo; SChannelId; SAllowedGroups].

Definition missing_message (s : Slice) : string :=
  match s with
  | SCredentials => "Missing credentials"
  | SActions => "Missing actions"
  | SConnectionInfo => "Missing connection info"
  | SChannelId => "Missing channel ID"
  | SAllowedGroups => "Missing allowed groups"
  end.

(** No valid call has set the slice. *)
Definition unset (calls : list Setter) (s : Slice) : bool :=
  match last_set s calls with
  | None => true
  | Some _ => false
  end.

(** Every field of the bot would pass the validation of the setter that
    stores it. *)
Definition validated (b : Bot.t) : bool :=
  negb (isEmpty (username (Bot._credentials b)))
  && negb (isEmpty (password (Bot._credentials b)))
  && negb (isEmpty (botName (Bot._credentials b)))
  && negb (isEmpty (address (Bot._connectionInfo b)))
  && positive_integer (queryPort (Bot._connectionInfo b))
  && positive_integer (serverPort (Bot._connectionInfo b))
  && positive_integer (Bot._channelId b)
  && forallb positive_integer (Bot._allowedGroupIds b)
  && isFunction (success (Bot._actions b))
  && isFunction (noPerms (Bot._actions b)).





End Factory.

(** ** The example script *)

Module Scenario.

(** The setter calls of the example, in its order. *)
Definition calls : list Factory.Setter :=
  [ Factory.WithCredentials (JStr "serveradmin") (JStr "password") (JStr "TEST");
    Factory.WithAllowedGroups (Some []);
    Factory.WithConnectionInfo (JStr "uhc.gg") (JNum 10011) (JNum 9989);
    Factory.InChannel (JNum 1173);
    Factory.WithActions (JFun 0) (JFun 1) ].

(** The two callbacks of the example, and a callback that throws. *)
Definition closure (ref : nat) : Bot.Closure :=
  match ref with
  | 0 =>
      {| Bot.source := "(bot, clid) => { ... }";
         Bot.body := fun _ clid =>
           ([ Bot.CallSendPoke clid (JStr "test success poke");
              Bot.CallSendMessage clid (JStr "success");
              Bot.CallKickClient clid (JStr "success") ], None) |}
  | 1 =>
      {| Bot.source := "(bot, clid) => { ... }";
         Bot.body := fun _ clid =>
           ([ Bot.CallSendPoke clid (JStr "test no perms poke");
              Bot.CallSendMessage clid (JStr "no perms");
              Bot.CallKickClient clid (JStr "no perms") ], None) |}
  | _ =>
      {| Bot.source := "(bot, clid) => { throw new Error('handler failed'); }";
         Bot.body := fun _ _ => ([], Some (Error "handler failed")) |}
  end.

(** A query client without state that answers by [reply]. *)
Definition env (reply : Bot.Request -> JsError + gmap string JsValue)
    : Bot.Environment :=
  {| Bot.NetState := unit;
     Bot.respond := fun _ req => (tt, reply req);
     Bot.closure := closure |}.

(** The bot of the example, with a list of allowed groups and a success
    callback of its own, once it knows that it is client 1. *)
Definition bot (allowedGroupIds : list JsValue) (success : JsValue) : Bot.t :=
  {| Bot._credentials :=
       {| username := JStr "serveradmin"; password := JStr "password";
          botName := JStr "TEST" |};
     Bot._connectionInfo :=
       {| address := JStr "uhc.gg"; queryPort := JNum 10011;
          serverPort := JNum 9989 |};
     Bot._channelId := JNum 1173;
     Bot._allowedGroupIds := allowedGroupIds;
     Bot._actions := {| success := success; noPerms := JFun 1 |};
     Bot.whoami := Some {[ "client_id" := JNum 1 ]} |}.

Definition world reply (b : Bot.t) : Bot.World (env reply) :=
  @Bot.Build_World (env reply) b tt [].

(** The answer that reports client id 1 and the server groups [groups]. *)
Definition answer (groups : JsValue) : JsError + gmap string JsValue :=
  inr {[ "client_id" := JNum 1; "client_servergroups" := groups ]}.

(** Every request is answered; the client asked about is reported with
    [groups]. *)
Definition reply_groups (groups : JsValue) (req : Bot.Request)
    : JsError + gmap string JsValue :=
  answer groups.

(** The group-membership query fails, everything else is answered. *)
Definition reply_no_clientinfo (req : Bot.Request) : JsError + gmap string JsValue :=
  if String.eqb (Bot.command req) "clientinfo"
  then inl (QueryError 512 "invalid clientID")
  else reply_groups (JStr "3,7") req.

(** The payload of a notification: client [clid] arrives in channel [ctid]. *)
Definition arrival (ctid clid : Z) : gmap string JsValue :=
  {[ "ctid" := JNum ctid; "clid" := JNum clid ]}.

(** The bot of the example as [build()] returns it, without identity. *)
Definition fresh : Bot.t :=
  Bot.new {| username := JStr "serveradmin"; password := JStr "password";
             botName := JStr "TEST" |}
          {| address := JStr "uhc.gg"; queryPort := JNum 10011;
             serverPort := JNum 9989 |}
          (JNum 1173) {| success := JFun 0; noPerms := JFun 1 |} [].

(** Every request is answered with an empty mapping. *)
Definition reply_nothing (req : Bot.Request) : JsError + gmap string JsValue :=
  inr ∅.

(** The calls of the example with groups 5 and 7 allowed, and a rejected
    call among them. *)
Definition calls_with_groups : list Factory.Setter :=
  [ Factory.WithCredentials (JStr "serveradmin") (JStr "password") (JStr "TEST");
    Factory.WithAllowedGroups (Some [JNum 5; JNum 7]);
    Factory.InChannel (JStr "1173");
    Factory.WithConnectionInfo (JStr "uhc.gg") (JNum 10011) (JNum 9989);
    Factory.InChannel (JNum 1173);
    Factory.WithActions (JFun 0) (JFun 1) ].

(** The kick fails, everything else is answered. *)
Definition reply_no_kick (req : Bot.Request) : JsError + gmap string JsValue :=
  if String.eqb (Bot.command req) "clientkick"
  then inl (QueryError 2568 "insufficient client permissions")
  else answer (JStr "3,7").

End Scenario.

(** * Properties *)

(** ** The monad *)

Lemma bind_returns {S A B} (m : M S A) (f : A -> M S B) s s' x :
  m s = (s', inr x) -> (m ≫= f) s = f x s'.
Proof. intros H. unfold mbind, M_bind. now rewrite H. Qed.

Lemma bind_throws {S A B} (m : M S A) (f : A -> M S B) s s' e :
  m s = (s', inl e) -> (m ≫= f) s = (s', inl e).
Proof. intros H. unfold mbind, M_bind. now rewrite H. Qed.

Lemma catch_returns {S A} (p : M S A) h (s s' : S) x :
  p s = (s', inr x) -> catch p h s = (s', inr x).
Proof. intros H. unfold catch. now rewrite H. Qed.

Lemma catch_throws {S A} (p : M S A) h (s s' : S) e :
  p s = (s', inl e) -> catch p h s = h e s'.
Proof. intros H. unfold catch. now rewrite H. Qed.

(** ** The configuration builder *)

Section FactoryFacts.

Import Factory.

Lemma validatePositiveInteger_spec {S} it message (s : S) :
  validatePositiveInteger it message s =
  if positive_integer it then (s, inr tt) else (s, inl (Error message)).
Proof.
  unfold validatePositiveInteger, positive_integer.
  destruct it; simpl; try reflexivity.
  destruct (Z.leb_spec z 0), (Z.ltb_spec 0 z); try lia; reflexivity.
Qed.

Lemma validateString_spec {S} it message (s : S) :
  validateString it message s =
  if negb (isEmpty it) then (s, inr tt) else (s, inl (Error message)).
Proof. unfold validateString. now destruct (isEmpty it). Qed.

Lemma validateFunction_spec {S} it message (s : S) :
  validateFunction it message s =
  if isFunction it then (s, inr tt) else (s, inl (Error message)).
Proof. unfold validateFunction. now destruct (isFunction it). Qed.

Lemma forEach_validate {S} (groups : list JsValue) message (s : S) :
  forEach groups (fun it => validatePositiveInteger it message) s =
  if forallb positive_integer groups then (s, inr tt) else (s, inl (Error message)).
Proof.
  induction groups as [|it groups IH]; simpl; [reflexivity|].
  unfold mbind, M_bind. rewrite validatePositiveInteger_spec.
  destruct (positive_integer it); simpl; [apply IH | reflexivity].
Qed.

(** A setter call with an invalid argument throws and assigns nothing. *)
Lemma call_invalid c this :
  valid_arguments c = false ->
  exists message, call c this = (this, inl (Error message)).
Proof.
  destruct c as [u p b|s n|a q sp|ch|g]; simpl; intros Hv.
  - unfold withCredentials, mbind, M_bind. rewrite !validateString_spec.
    destruct (isEmpty u); simpl in *; [eauto|].
    rewrite validateString_spec.
    destruct (isEmpty p); simpl in *; [eauto|].
    rewrite validateString_spec.
    destruct (isEmpty b); simpl in *; [eauto|discriminate].
  - unfold withActions, mbind, M_bind. rewrite validateFunction_spec.
    destruct (isFunction s); simpl in *; [|eauto].
    rewrite validateFunction_spec.
    destruct (isFunction n); simpl in *; [discriminate|eauto].
  - unfold withConnectionInfo, mbind, M_bind. rewrite validateString_spec.
    destruct (isEmpty a); simpl in *; [eauto|].
    rewrite validatePositiveInteger_spec.
    destruct (positive_integer q); simpl in *; [|eauto].
    rewrite validatePositiveInteger_spec.
    destruct (positive_integer sp); simpl in *; [discriminate|eauto].
  - unfold inChannel, mbind, M_bind. rewrite validatePositiveInteger_spec, Hv. eauto.
  - unfold withAllowedGroups, mbind, M_bind. rewrite forEach_validate, Hv. eauto.
Qed.

(** A setter call with valid arguments stores them and returns. *)
Lemma call_valid c this :
  valid_arguments c = true -> call c this = (assigned c this, inr tt).
Proof.
  destruct c as [u p b|s n|a q sp|ch|g]; simpl; intros Hv.
  - apply andb_prop in Hv as [Hv Hb]. apply andb_prop in Hv as [Hu Hp].
    unfold withCredentials, mbind, M_bind.
    rewrite !validateString_spec, Hu. simpl.
    rewrite validateString_spec, Hp. simpl.
    rewrite validateString_spec, Hb. reflexivity.
  - apply andb_prop in Hv as [Hs Hn].
    unfold withActions, mbind, M_bind.
    rewrite validateFunction_spec, Hs. simpl.
    rewrite validateFunction_spec, Hn. reflexivity.
  - apply andb_prop in Hv as [Hv Hsp]. apply andb_prop in Hv as [Ha Hq].
    unfold withConnectionInfo, mbind, M_bind.
    rewrite validateString_spec, Ha. simpl.
    rewrite validatePositiveInteger_spec, Hq. simpl.
    rewrite validatePositiveInteger_spec, Hsp. reflexivity.
  - unfold inChannel, mbind, M_bind.
    rewrite validatePositiveInteger_spec, Hv. reflexivity.
  - unfold withAllowedGroups, mbind, M_bind.
    rewrite forEach_validate, Hv. reflexivity.
Qed.

Lemma configure_snoc calls c :
  configure (calls ++ [c]) = fst (call c (configure calls)).
Proof. unfold configure. now rewrite fold_left_app. Qed.

Lemma last_set_snoc s calls c :
  last_set s (calls ++ [c]) =
  if bool_decide (slice_of c = s) && valid_arguments c then Some c
  else last_set s calls.
Proof. unfold last_set. now rewrite rev_unit. Qed.

Lemma last_set_valid s calls c :
  last_set s calls = Some c -> slice_of c = s /\ valid_arguments c = true.
Proof.
  unfold last_set. intros H. apply find_some in H as [_ H].
  apply andb_prop in H as [Hs Hv]. split; [|exact Hv].
  now apply bool_decide_eq_true in Hs.
Qed.

Lemma held_assigned s c this :
  valid_arguments c = true ->
  held s (assigned c this) =
  if bool_decide (slice_of c = s) then Some (explicit c) else held s this.
Proof.
  intros Hv. destruct c as [u p b|su n|a q sp|ch|g], s; try reflexivity.
  simpl in *. destruct ch; try discriminate. reflexivity.
Qed.

(** Each slice of a builder holds the arguments of the last valid call of
    its setter, and is undefined when there was none. *)
Lemma configure_holds s calls :
  held s (configure calls) = explicit <$> last_set s calls.
Proof.
  induction calls as [|c calls IH] using rev_ind.
  - now destruct s.
  - rewrite configure_snoc, last_set_snoc.
    destruct (valid_arguments c) eqn:Hv.
    + rewrite call_valid by exact Hv. simpl fst.
      rewrite held_assigned by exact Hv.
      rewrite andb_true_r. now destruct (bool_decide (slice_of c = s)).
    + destruct (call_invalid c (configure calls) Hv) as [m ->].
      rewrite andb_false_r. exact IH.
Qed.

(** C9. Every setter validates all of its arguments before it assigns: a
    call with an invalid argument throws and leaves the builder as it was,
    and whenever a call throws, every slice stored before is unchanged. *)
Theorem setter_failure_keeps_builder (c : Setter) (this : t) :
  (valid_arguments c = false ->
   exists message, call c this = (this, inl (Error message)))
  /\ (forall e, snd (call c this) = inl e -> fst (call c this) = this).
Proof.
  split.
  - apply call_invalid.
  - intros e He. destruct (valid_arguments c) eqn:Hv.
    + rewrite call_valid in He by exact Hv. discriminate.
    + destruct (call_invalid c this Hv) as [m ->]. reflexivity.
Qed.

(** C4. On a builder whose five slices were all set by valid calls,
    [build()] returns a bot that carries exactly the arguments of the last
    valid call of each setter; on a builder with a slice that no valid
    call ever set, [build()] throws. *)
Theorem build_complete_or_missing (calls : list Setter) :
  (forall u p b s n a q sp ch g,
     last_set SCredentials calls = Some (WithCredentials u p b) ->
     last_set SActions calls = Some (WithActions s n) ->
     last_set SConnectionInfo calls = Some (WithConnectionInfo a q sp) ->
     last_set SChannelId calls = Some (InChannel ch) ->
     last_set SAllowedGroups calls = Some (WithAllowedGroups g) ->
     build (configure calls) =
     (configure calls,
      inr {| Bot._credentials := {| username := u; password := p; botName := b |};
             Bot._connectionInfo := {| address := a; queryPort := q; serverPort := sp |};
             Bot._channelId := ch;
             Bot._allowedGroupIds := default [] g;
             Bot._actions := {| success := s; noPerms := n |};
             Bot.whoami := None |}))
  /\ (forall slice,
       last_set slice calls = None ->
       exists message, build (configure calls) = (configure calls, inl (Error message))).
Proof.
  split.
  - intros u p b s n a q sp ch g H1 H2 H3 H4 H5.
    pose proof (configure_holds SCredentials calls) as K1.
    pose proof (configure_holds SActions calls) as K2.
    pose proof (configure_holds SConnectionInfo calls) as K3.
    pose proof (configure_holds SChannelId calls) as K4.
    pose proof (configure_holds SAllowedGroups calls) as K5.
    rewrite H1 in K1. rewrite H2 in K2. rewrite H3 in K3.
    rewrite H4 in K4. rewrite H5 in K5.
    apply last_set_valid in H4 as [_ Hch].
    unfold build, mbind, M_bind, get. simpl in *.
    destruct (_credentials (configure calls)) as [c|]; [|discriminate].
    destruct (_actions (configure calls)) as [ac|]; [|discriminate].
    destruct (_connectionInfo (configure calls)) as [i|]; [|discriminate].
    destruct (_allowedGroupIds (configure calls)) as [gs|]; [|discriminate].
    destruct (isUndefined (_channelId (configure calls))); [discriminate|].
    destruct c, ac, i. simpl in *.
    injection K1 as -> -> ->. injection K2 as -> ->.
    injection K3 as -> -> ->. injection K4 as ->. injection K5 as ->.
    destruct ch as [| | |z| | |]; try discriminate.
    unfold positive_integer in Hch. simpl in Hch.
    destruct (Z.ltb_spec 0 z) as [Hz|]; [|discriminate].
    simpl. destruct (Z.eqb_spec z 0) as [->|_]; [lia|]. reflexivity.
  - intros slice Hnone.
    pose proof (configure_holds slice calls) as K. rewrite Hnone in K.
    unfold build, mbind, M_bind, get. simpl in *.
    destruct slice; simpl in K.
    + destruct (_credentials (configure calls)); [discriminate|].
      unfold throw. eauto.
    + destruct (_credentials (configure calls)); [|unfold throw; eauto].
      destruct (_actions (configure calls)); [discriminate|unfold throw; eauto].
    + destruct (_credentials (configure calls)); [|unfold throw; eauto].
      destruct (_actions (configure calls)); [|unfold throw; eauto].
      destruct (_connectionInfo (configure calls)); [discriminate|unfold throw; eauto].
    + destruct (_credentials (configure calls)); [|unfold throw; eauto].
      destruct (_actions (configure calls)); [|unfold throw; eauto].
      destruct (_connectionInfo (configure calls)); [|unfold throw; eauto].
      destruct (_channelId (configure calls)); try discriminate.
      simpl. unfold throw. eauto.
    + destruct (_credentials (configure calls)); [|unfold throw; eauto].
      destruct (_actions (configure calls)); [|unfold throw; eauto].
      destruct (_connectionInfo (configure calls)); [|unfold throw; eauto].
      destruct (negb (truthy (_channelId (configure calls)))); [unfold throw; eauto|].
      destruct (_allowedGroupIds (configure calls)); [discriminate|unfold throw; eauto].
Qed.

End FactoryFacts.

Lemma setter_failure_keeps_builder_witness :
  Factory.valid_arguments
    (Factory.WithConnectionInfo (JStr "uhc.gg") (JNum 10011) (JNum 0)) = false
  /\ (exists message,
        Factory.call
          (Factory.WithConnectionInfo (JStr "uhc.gg") (JNum 10011) (JNum 0))
          (Factory.configure Scenario.calls)
        = (Factory.configure Scenario.calls, inl (Error message)))
  /\ fst (Factory.call (Factory.InChannel (JStr "1173")) (Factory.configure Scenario.calls))
     = Factory.configure Scenario.calls.
Proof.
  split; [reflexivity|]. split.
  - apply (proj1 (setter_failure_keeps_builder _ _)). reflexivity.
  - apply (proj2 (setter_failure_keeps_builder _ _) (Error "Invalid channel id")).
    reflexivity.
Defined.

Lemma build_complete_or_missing_witness :
  Factory.build (Factory.configure Scenario.calls)
  = (Factory.configure Scenario.calls,
     inr (Bot.new {| username := JStr "serveradmin"; password := JStr "password";
                     botName := JStr "TEST" |}
                  {| address := JStr "uhc.gg"; queryPort := JNum 10011;
                     serverPort := JNum 9989 |}
                  (JNum 1173) {| success := JFun 0; noPerms := JFun 1 |} []))
  /\ (exists message,
        Factory.build (Factory.configure (take 4 Scenario.calls))
        = (Factory.configure (take 4 Scenario.calls), inl (Error message))).
Proof.
  split.
  - apply (proj1 (build_complete_or_missing Scenario.calls)
             (JStr "serveradmin") (JStr "password") (JStr "TEST")
             (JFun 0) (JFun 1)
             (JStr "uhc.gg") (JNum 10011) (JNum 9989)
             (JNum 1173) (Some [])); reflexivity.
  - apply (proj2 (build_complete_or_missing (take 4 Scenario.calls)) Factory.SActions).
    reflexivity.
Defined.

(** ** The session *)

Section BotFacts.

Import Bot.

Context {E : Environment}.

Implicit Types (w : World E) (clid cid message : JsValue).

Lemma _send_run command params options w :
  _send command params options w =
  (exchanged w (request_of command params options),
   snd (respond E (net w) (request_of command params options))).
Proof.
  unfold _send, exchanged, request_of.
  now destruct (respond E (net w) _) as [n outcome].
Qed.

Lemma kickClient_run clid message w :
  kickClient clid message w =
  _send "clientkick"
    {[ "clid" := clid; "reasonid" := JNum 4; "reasonmsg" := message ]} [] w.
Proof. reflexivity. Qed.

(** C3. An enter-view event into the configured channel sends one request,
    the kick of that client with the message "Channel not allowed", and
    nothing else: no group query and no action handler.  An enter-view
    event for another channel leaves the world as it was. *)
Theorem onEnterView_kicks_unconditionally (viewEvent : gmap string JsValue) w :
  (strict_eq (prop viewEvent "ctid") (_channelId (this w)) = true ->
   fst (_onEnterView viewEvent w) =
   exchanged w
     (request_of "clientkick"
        {[ "clid" := prop viewEvent "clid"; "reasonid" := JNum 4;
           "reasonmsg" := JStr "Channel not allowed" ]} []))
  /\ (strict_eq (prop viewEvent "ctid") (_channelId (this w)) = false ->
      _onEnterView viewEvent w = (w, inr tt)).
Proof.
  split; intros H; unfold _onEnterView, self, mbind, M_bind; rewrite H; simpl.
  - rewrite kickClient_run, _send_run.
    now destruct (snd (respond E (net w) _)).
  - reflexivity.
Qed.

(** C7. A move event whose destination is not the configured channel, or
    whose client is the bot itself, leaves the world as it was: no group
    query goes out and no action handler is called. *)
Theorem onClientMove_ignores_elsewhere_and_self (moveEvent : gmap string JsValue) w :
  strict_eq (prop moveEvent "ctid") (_channelId (this w)) = false
  \/ (exists me, whoami (this w) = Some me
                 /\ strict_eq (prop moveEvent "clid") (prop me "client_id") = true) ->
  _onClientMove moveEvent w = (w, inr tt).
Proof.
  intros [H|(me & Hme & H)]; unfold _onClientMove, self, mbind, M_bind.
  - now rewrite H.
  - destruct (strict_eq (prop moveEvent "ctid") (_channelId (this w))); [|reflexivity].
    simpl. unfold whoami_prop, self, mbind, M_bind. rewrite Hme. simpl.
    now rewrite H.
Qed.

Lemma whoami_prop_known k w response :
  whoami (this w) = Some response -> whoami_prop k w = (w, inr (prop response k)).
Proof. intros H. unfold whoami_prop, self, mbind, M_bind. now rewrite H. Qed.

Lemma joinChannel_payload_run cid clid password w :
  clid <> JUndefined \/ is_Some (whoami (this w)) ->
  joinChannel_payload cid clid password w =
  (w, inr (let payload : gmap string JsValue :=
             {[ "cid" := cid; "clid" := if isUndefined clid then own_id w else clid ]} in
           if negb (isUndefined password)
           then <[ "password" := password ]> payload
           else payload)).
Proof.
  intros H. unfold joinChannel_payload, mbind, M_bind.
  destruct (isUndefined clid) eqn:Hc.
  - destruct H as [H|[response H]].
    + destruct clid; try discriminate. contradiction.
    + rewrite (whoami_prop_known _ _ _ H). unfold own_id. now rewrite H.
  - reflexivity.
Qed.

(** C6. [joinChannel] without a password sends a payload of [cid] and
    [clid] only, with no password field; with a password, the empty string
    included, the payload has a password field of that value. *)
Theorem joinChannel_password_field cid clid password w :
  clid <> JUndefined \/ is_Some (whoami (this w)) ->
  let payload : gmap string JsValue :=
    {[ "cid" := cid; "clid" := if isUndefined clid then own_id w else clid ]} in
  (password = JUndefined ->
   fst (joinChannel cid clid password w) =
   exchanged w (request_of "clientmove" payload [])
   /\ payload !! "password" = None)
  /\ (password <> JUndefined ->
      fst (joinChannel cid clid password w) =
      exchanged w (request_of "clientmove" (<[ "password" := password ]> payload) [])
      /\ <[ "password" := password ]> payload !! "password" = Some password).
Proof.
  intros H payload. split; intros Hp.
  - subst password. split.
    + unfold joinChannel, mbind, M_bind.
      rewrite joinChannel_payload_run by exact H. simpl.
      now rewrite _send_run.
    + subst payload. now rewrite !lookup_insert_ne by discriminate.
  - split.
    + unfold joinChannel, mbind, M_bind.
      rewrite joinChannel_payload_run by exact H.
      assert (isUndefined password = false) as ->
        by (destruct password; try reflexivity; contradiction).
      simpl. now rewrite _send_run.
    + apply lookup_insert_eq.
Qed.

(** The group query of [_hasPermission]. *)
Lemma _hasPermission_run clid w :
  _hasPermission clid w =
  match snd (respond E (net w) (request_of "clientinfo" {[ "clid" := clid ]} ["groups"])) with
  | inr response =>
      _hasPermission_then response
        (exchanged w (request_of "clientinfo" {[ "clid" := clid ]} ["groups"]))
  | inl e =>
      (exchanged w (request_of "clientinfo" {[ "clid" := clid ]} ["groups"]), inl e)
  end.
Proof.
  unfold _hasPermission, mbind, M_bind. rewrite _send_run.
  now destruct (snd (respond E (net w) _)).
Qed.

Lemma toString_reported v w :
  v <> JUndefined -> v <> JNull -> exists s, toString v w = (w, inr s).
Proof. intros H1 H2. destruct v; try contradiction; simpl; eauto. Qed.

Lemma includes_strings (l : list string) x :
  isInteger x = true -> includes (JStr <$> l) x = false.
Proof.
  intros Hx. destruct x; try discriminate.
  induction l as [|s l IH]; [reflexivity|exact IH].
Qed.

(** No integer is found among strings. *)
Lemma intersection_integers_strings (allowed : list JsValue) (l : list string) :
  forallb isInteger allowed = true -> intersection allowed (JStr <$> l) = [].
Proof.
  unfold intersection. intros H.
  enough (forall result,
           fold_left
             (fun result x =>
                if negb (includes result x) && includes (JStr <$> l) x
                then result ++ [x] else result)
             allowed result = result) as K by apply K.
  induction allowed as [|x allowed IH]; intros result; simpl in *; [reflexivity|].
  apply andb_prop in H as [Hx H].
  rewrite (includes_strings l x Hx), andb_false_r. now apply IH.
Qed.

(** With a non-empty list of integer groups, the answer of
    [_hasPermission] is never [true]: the groups of the client are compared
    as strings. *)
Lemma _hasPermission_then_integers (response : gmap string JsValue) w :
  _allowedGroupIds (this w) <> [] ->
  forallb isInteger (_allowedGroupIds (this w)) = true ->
  snd (_hasPermission_then response w) <> inr true.
Proof.
  intros Hne Hint. unfold _hasPermission_then, self, mbind, M_bind.
  destruct (toString (prop response "client_servergroups") w) as [w' [e|s]] eqn:Hs;
    [discriminate|].
  assert (w' = w) as ->
    by (destruct (prop response "client_servergroups");
        unfold toString, throw, mret, M_ret in Hs; congruence).
  simpl. rewrite intersection_integers_strings by exact Hint.
  destruct (_allowedGroupIds (this w)); [contradiction|]. simpl. discriminate.
Qed.

(** C1. With allowed groups [[5, 7]] and a client reported in groups
    ["3,7"], [_hasPermission] answers [false], although 7 is in both. *)
Theorem hasPermission_misses_shared_group clid w n (response : gmap string JsValue) :
  _allowedGroupIds (this w) = [JNum 5; JNum 7] ->
  respond E (net w) (request_of "clientinfo" {[ "clid" := clid ]} ["groups"])
  = (n, inr response) ->
  prop response "client_servergroups" = JStr "3,7" ->
  snd (_hasPermission clid w) = inr false.
Proof.
  intros Hallowed Hrespond Hgroups.
  rewrite _hasPermission_run, Hrespond. simpl.
  unfold _hasPermission_then, self, mbind, M_bind. simpl.
  rewrite Hgroups, Hallowed. reflexivity.
Qed.

(** C2. With no allowed group configured, [_hasPermission] answers [true]
    whatever groups the query client reports for the client, the empty
    string included. *)
Theorem hasPermission_empty_allows_all clid w n (response : gmap string JsValue) :
  _allowedGroupIds (this w) = [] ->
  respond E (net w) (request_of "clientinfo" {[ "clid" := clid ]} ["groups"])
  = (n, inr response) ->
  prop response "client_servergroups" <> JUndefined ->
  prop response "client_servergroups" <> JNull ->
  snd (_hasPermission clid w) = inr true.
Proof.
  intros Hallowed Hrespond H1 H2.
  rewrite _hasPermission_run, Hrespond. simpl.
  unfold _hasPermission_then, self, mbind, M_bind. simpl.
  destruct (toString_reported _ (exchanged w (request_of "clientinfo" {[ "clid" := clid ]} ["groups"])) H1 H2)
    as [s ->].
  simpl. now rewrite Hallowed.
Qed.

Lemma _onClientMove_run (moveEvent : gmap string JsValue) w me :
  strict_eq (prop moveEvent "ctid") (_channelId (this w)) = true ->
  whoami (this w) = Some me ->
  strict_eq (prop moveEvent "clid") (prop me "client_id") = false ->
  _onClientMove moveEvent w =
  detach
    (catch (guard_chain (prop moveEvent "clid"))
       (fun err =>
          console_error
            [LStr "Error when running for client ID"; LVal (prop moveEvent "clid");
             LErr err])) w.
Proof.
  intros Hc Hme Hs. unfold _onClientMove, self. unfold mbind at 1, M_bind at 1.
  rewrite Hc. cbn [negb]. unfold mbind at 1, M_bind at 1.
  rewrite (whoami_prop_known _ _ _ Hme), Hs. reflexivity.
Qed.

(** C8. On a move event into the configured channel by another client,
    the listener always returns, so the event loop goes on with the next
    notification.  When the group query fails, no handler is called and
    the error is reported; and whatever error ends the chain of the check
    and the handler, it is reported and goes no further. *)
Theorem onClientMove_catches_errors (moveEvent : gmap string JsValue) w me :
  strict_eq (prop moveEvent "ctid") (_channelId (this w)) = true ->
  whoami (this w) = Some me ->
  strict_eq (prop moveEvent "clid") (prop me "client_id") = false ->
  let clientId := prop moveEvent "clid" in
  let query := request_of "clientinfo" {[ "clid" := clientId ]} ["groups"] in
  snd (_onClientMove moveEvent w) = inr tt
  /\ (forall rest,
        eventLoop (ClientMoved moveEvent :: rest) w =
        eventLoop rest (fst (_onClientMove moveEvent w)))
  /\ (forall e,
        snd (respond E (net w) query) = inl e ->
        fst (_onClientMove moveEvent w) = reported (exchanged w query) clientId e)
  /\ (forall w' e,
        guard_chain clientId w = (w', inl e) ->
        fst (_onClientMove moveEvent w) = reported w' clientId e).
Proof.
  intros Hc Hme Hs clientId query.
  rewrite (_onClientMove_run _ _ _ Hc Hme Hs). fold clientId.
  assert (forall w' e, guard_chain clientId w = (w', inl e) ->
          fst (detach (catch (guard_chain clientId)
                 (fun err => console_error
                    [LStr "Error when running for client ID"; LVal clientId; LErr err])) w)
          = reported w' clientId e) as Hchain.
  { intros w' e H. unfold detach. now rewrite (catch_throws _ _ _ _ _ H). }
  split; [reflexivity|]. split; [|split].
  - intros rest. simpl eventLoop. unfold mbind at 1, M_bind at 1. simpl emit.
    rewrite (_onClientMove_run _ _ _ Hc Hme Hs). reflexivity.
  - intros e He. apply Hchain.
    unfold guard_chain, mbind, M_bind. rewrite _hasPermission_run.
    fold query. now rewrite He.
  - exact Hchain.
Qed.

(** *** Effects are only appended *)

Section Appends.

Variable P : Effect -> Prop.

Lemma appends_ret {A} (x : A) : appends P (A := A) (mret x).
Proof. intros w. exists []. now rewrite app_nil_r. Qed.

Lemma appends_throw {A} e : appends P (A := A) (throw e).
Proof. intros w. exists []. now rewrite app_nil_r. Qed.

Lemma appends_self : appends P self.
Proof. intros w. exists []. now rewrite app_nil_r. Qed.

Lemma appends_bind {A B} (m : M (World E) A) (f : A -> M (World E) B) :
  appends P m -> (forall x, appends P (f x)) -> appends P (m ≫= f).
Proof.
  intros Hm Hf w. destruct (Hm w) as (a1 & H1 & F1).
  unfold mbind, M_bind. destruct (m w) as [w1 [e|x]]; simpl in *.
  - now exists a1.
  - destruct (Hf x w1) as (a2 & H2 & F2). exists (a1 ++ a2).
    rewrite H2, H1, app_assoc. split; [reflexivity|]. now apply Forall_app.
Qed.

Lemma appends_catch {A} (p : M (World E) A) h :
  appends P p -> (forall e, appends P (h e)) -> appends P (catch p h).
Proof.
  intros Hp Hh w. destruct (Hp w) as (a1 & H1 & F1).
  unfold catch. destruct (p w) as [w1 [e|x]]; simpl in *.
  - destruct (Hh e w1) as (a2 & H2 & F2). exists (a1 ++ a2).
    rewrite H2, H1, app_assoc. split; [reflexivity|]. now apply Forall_app.
  - now exists a1.
Qed.

Lemma appends_detach {A} (p : M (World E) A) : appends P p -> appends P (detach p).
Proof. intros Hp w. exact (Hp w). Qed.

Lemma appends_effect e : P e -> appends P (effect e).
Proof. intros He w. exists [e]. split; [reflexivity|]. now constructor. Qed.

Lemma appends_send command params options :
  P (Sent (request_of command params options)) ->
  (forall outcome, P (Replied outcome)) ->
  appends P (_send command params options).
Proof.
  intros Hs Hr w. rewrite _send_run. simpl. eexists. split; [reflexivity|].
  repeat constructor; [exact Hs|apply Hr].
Qed.

Lemma appends_forEach {A} (l : list A) (f : A -> M (World E) unit) :
  (forall x, appends P (f x)) -> appends P (forEach l f).
Proof.
  intros Hf. induction l as [|x l IH]; simpl.
  - apply appends_ret.
  - apply appends_bind; [apply Hf|intros _; exact IH].
Qed.

Lemma appends_whoami_prop k : appends P (whoami_prop k).
Proof.
  apply appends_bind; [apply appends_self|]. intros b.
  destruct (whoami b); [apply appends_ret|apply appends_throw].
Qed.

Lemma appends_toString v : appends P (toString v).
Proof. destruct v; simpl; first [apply appends_ret|apply appends_throw]. Qed.

End Appends.

Lemma kick_coded_other command params options :
  command <> "clientkick" -> kick_coded (Sent (request_of command params options)).
Proof. intros H K. contradiction. Qed.

Lemma kick_coded_kick clid message :
  kick_coded
    (Sent (request_of "clientkick"
             {[ "clid" := clid; "reasonid" := JNum 4; "reasonmsg" := message ]} [])).
Proof.
  intros _. simpl. rewrite lookup_insert_ne by discriminate. apply lookup_insert_eq.
Qed.

Ltac kick_free :=
  apply appends_send; [apply kick_coded_other; discriminate|intros ?; exact I].

Lemma appends_run_call c : appends kick_coded (run_call c).
Proof.
  destruct c; simpl.
  - apply appends_detach. kick_free.
  - apply appends_detach. kick_free.
  - apply appends_detach. apply appends_send; [apply kick_coded_kick|intros ?; exact I].
  - apply appends_bind.
    + apply appends_bind.
      * destruct (isUndefined clid); [apply appends_whoami_prop|apply appends_ret].
      * intros x. apply appends_ret.
    + intros payload. apply appends_detach. kick_free.
Qed.

Lemma appends_call_action key clientId : appends kick_coded (call_action key clientId).
Proof.
  apply appends_bind; [apply appends_self|]. intros b.
  destruct (actions_get (_actions b) key); try apply appends_throw.
  apply appends_bind; [apply appends_effect; exact I|]. intros _.
  destruct (body (closure E ref) b clientId) as [calls thrown].
  apply appends_bind.
  - apply appends_forEach. apply appends_run_call.
  - intros _. destruct thrown; [apply appends_throw|apply appends_ret].
Qed.

Lemma appends__hasPermission clid : appends kick_coded (_hasPermission clid).
Proof.
  apply appends_bind; [kick_free|]. intros response.
  apply appends_bind; [apply appends_self|]. intros b.
  apply appends_bind; [apply appends_toString|]. intros s. apply appends_ret.
Qed.

Lemma appends_emit n : appends kick_coded (emit n).
Proof.
  destruct n as [moveEvent|viewEvent]; simpl.
  - apply appends_bind; [apply appends_self|]. intros b.
    destruct (negb _); [apply appends_ret|].
    apply appends_bind; [apply appends_whoami_prop|]. intros me.
    destruct (strict_eq _ me); [apply appends_ret|].
    apply appends_detach, appends_catch.
    + apply appends_bind; [apply appends__hasPermission|].
      intros allowed. apply appends_call_action.
    + intros e. apply appends_effect. exact I.
  - apply appends_detach.
    apply appends_bind; [apply appends_self|]. intros b.
    destruct (negb _); [apply appends_ret|].
    apply appends_bind; [|intros _; apply appends_ret].
    apply appends_send; [apply kick_coded_kick|intros ?; exact I].
Qed.

(** C10. [kickClient] sends exactly the command [clientkick] with the
    payload of [clid], reason code 4 and the message; and whatever
    notifications arrive, every kick request that goes out, the one of the
    enter-view listener and those of the action callbacks included,
    carries reason code 4. *)
Theorem every_kick_has_reason_4 :
  (forall clid message w,
     fst (kickClient clid message w) =
     exchanged w
       (request_of "clientkick"
          {[ "clid" := clid; "reasonid" := JNum 4; "reasonmsg" := message ]} []))
  /\ (forall ns w, exists added,
        trace (fst (eventLoop ns w)) = trace w ++ added /\ Forall kick_coded added).
Proof.
  split.
  - intros clid message w. now rewrite kickClient_run, _send_run.
  - intros ns. change (appends kick_coded (eventLoop ns)).
    induction ns as [|n ns IH]; simpl.
    + apply appends_ret.
    + apply appends_bind; [apply appends_emit|intros _; exact IH].
Qed.

Ltac session_step :=
  cbn [fst snd this net trace whoami _credentials _connectionInfo _channelId
       _allowedGroupIds _actions isUndefined negb] in *.

Ltac replay_answers :=
  cbn [converse fmap list_fmap fst];
  repeat match goal with
         | H : respond E _ _ = _ |- context [respond E _ _] => rewrite H
         end;
  reflexivity.

Ltac identity_stored :=
  let Hl := fresh in
  let Hm := fresh in
  intros ? ? Hl; cbn in Hl;
  first
    [ discriminate
    | injection Hl as <- <-; split;
      [ reflexivity
      | intros ? ? Hm; cbn in Hm;
        first [discriminate | injection Hm as <- <-; reflexivity] ] ].

Ltac handshake_rest :=
  split; [reflexivity|]; split; [replay_answers|identity_stored].

Ltac handshake_aborted pre :=
  split;
  [ split; cycle 1;
    [ rewrite <- ?app_assoc; reflexivity
    | refine (ex_intro _ pre _); eexists; split; reflexivity ]
  | handshake_rest ].

(** C5. [start()] makes the six exchanges of the handshake in their
    order, each request after the answer to the one before; the first
    failed exchange is the last one and its error is the outcome of
    [start()], with no keep-alive; after six answers the keep-alive timer
    is set.  The answer to [whoami] is stored, and the move that follows
    names the client id it carries. *)
Theorem start_is_sequential w :
  exists log,
    match snd (start w) with
    | inr _ =>
        length log = 6 /\ forallb answered log = true
        /\ trace (fst (start w)) =
           trace w ++ [Listening "clientmoved"; Listening "cliententerview"]
             ++ exchanges log ++ [SetInterval 60000]
    | inl e =>
        (exists pre req, log = pre ++ [(req, inl e)] /\ forallb answered pre = true)
        /\ trace (fst (start w)) =
           trace w ++ [Listening "clientmoved"; Listening "cliententerview"]
             ++ exchanges log
    end
    /\ (command ∘ fst) <$> log = take (length log) handshake_commands
    /\ converse (net w) (fst <$> log) = (log, net (fst (start w)))
    /\ (forall req4 r4,
          log !! 3 = Some (req4, inr r4) ->
          whoami (this (fst (start w))) = Some r4
          /\ forall req5 o5,
               log !! 4 = Some (req5, o5) ->
               params req5 =
               {[ "cid" := _channelId (this w); "clid" := prop r4 "client_id" ]}).
Proof.
  unfold start, _connect, _login, _useServer, _changeName, _whoami, joinChannel,
    joinChannel_payload, _notifyForEvents, whoami_prop, self, effect, modify,
    mbind, M_bind, mret, M_ret, throw, _send.
  cbn [fst snd this net trace isUndefined negb].
  destruct (respond E (net w) _) as [n1 [e1|r1]] eqn:H1; session_step.
  { eexists [(_, _)]. handshake_aborted uconstr:([]). }
  destruct (respond E n1 _) as [n2 [e2|r2]] eqn:H2; session_step.
  { eexists [(_, _); (_, _)]. handshake_aborted uconstr:([(_, _)]). }
  destruct (respond E n2 _) as [n3 [e3|r3]] eqn:H3; session_step.
  { eexists [(_, _); (_, _); (_, _)]. handshake_aborted uconstr:([(_, _); (_, _)]). }
  destruct (respond E n3 _) as [n4 [e4|r4]] eqn:H4; session_step.
  { eexists [(_, _); (_, _); (_, _); (_, _)].
    handshake_aborted uconstr:([(_, _); (_, _); (_, _)]). }
  destruct (respond E n4 _) as [n5 [e5|r5]] eqn:H5; session_step.
  { eexists [(_, _); (_, _); (_, _); (_, _); (_, _)].
    handshake_aborted uconstr:([(_, _); (_, _); (_, _); (_, _)]). }
  destruct (respond E n5 _) as [n6 [e6|r6]] eqn:H6; session_step.
  { eexists [(_, _); (_, _); (_, _); (_, _); (_, _); (_, _)].
    handshake_aborted uconstr:([(_, _); (_, _); (_, _); (_, _); (_, _)]). }
  eexists [(_, _); (_, _); (_, _); (_, _); (_, _); (_, _)].
  split;
    [ split; [reflexivity|]; split; cycle 1;
      [ rewrite <- ?app_assoc; reflexivity | reflexivity ]
    | handshake_rest ].
Qed.

End BotFacts.

(** ** The theorems at the example *)

Lemma hasPermission_misses_shared_group_witness :
  snd (Bot._hasPermission (JNum 42)
         (Scenario.world (Scenario.reply_groups (JStr "3,7"))
            (Scenario.bot [JNum 5; JNum 7] (JFun 0))))
  = inr false.
Proof.
  apply (hasPermission_misses_shared_group
           (E := Scenario.env (Scenario.reply_groups (JStr "3,7")))
           (JNum 42) _ tt
           {[ "client_id" := JNum 1; "client_servergroups" := JStr "3,7" ]});
    reflexivity.
Defined.

Lemma hasPermission_empty_allows_all_witness :
  snd (Bot._hasPermission (JNum 42)
         (Scenario.world (Scenario.reply_groups (JStr ""))
            (Scenario.bot [] (JFun 0))))
  = inr true.
Proof.
  apply (hasPermission_empty_allows_all
           (E := Scenario.env (Scenario.reply_groups (JStr "")))
           (JNum 42) _ tt
           {[ "client_id" := JNum 1; "client_servergroups" := JStr "" ]});
    [reflexivity|reflexivity|discriminate|discriminate].
Defined.

Lemma onEnterView_kicks_unconditionally_witness :
  Bot.trace
    (fst (Bot._onEnterView (Scenario.arrival 1173 42)
            (Scenario.world (Scenario.reply_groups (JStr "3,7"))
               (Scenario.bot [] (JFun 0)))))
  = [ Bot.Sent
        (Bot.request_of "clientkick"
           {[ "clid" := JNum 42; "reasonid" := JNum 4;
              "reasonmsg" := JStr "Channel not allowed" ]} []);
      Bot.Replied (Scenario.answer (JStr "3,7")) ]
  /\ Bot._onEnterView (Scenario.arrival 7 42)
       (Scenario.world (Scenario.reply_groups (JStr "3,7")) (Scenario.bot [] (JFun 0)))
     = (Scenario.world (Scenario.reply_groups (JStr "3,7")) (Scenario.bot [] (JFun 0)),
        inr tt).
Proof.
  split.
  - rewrite (proj1 (onEnterView_kicks_unconditionally
                      (E := Scenario.env (Scenario.reply_groups (JStr "3,7")))
                      (Scenario.arrival 1173 42) _)); reflexivity.
  - apply (proj2 (onEnterView_kicks_unconditionally
                    (E := Scenario.env (Scenario.reply_groups (JStr "3,7")))
                    (Scenario.arrival 7 42) _)); reflexivity.
Defined.

Lemma onClientMove_ignores_elsewhere_and_self_witness :
  Bot._onClientMove (Scenario.arrival 7 42)
    (Scenario.world (Scenario.reply_groups (JStr "3,7")) (Scenario.bot [] (JFun 0)))
  = (Scenario.world (Scenario.reply_groups (JStr "3,7")) (Scenario.bot [] (JFun 0)), inr tt)
  /\ Bot._onClientMove (Scenario.arrival 1173 1)
       (Scenario.world (Scenario.reply_groups (JStr "3,7")) (Scenario.bot [] (JFun 0)))
     = (Scenario.world (Scenario.reply_groups (JStr "3,7")) (Scenario.bot [] (JFun 0)),
        inr tt).
Proof.
  split.
  - apply (onClientMove_ignores_elsewhere_and_self
             (E := Scenario.env (Scenario.reply_groups (JStr "3,7")))).
    left. reflexivity.
  - apply (onClientMove_ignores_elsewhere_and_self
             (E := Scenario.env (Scenario.reply_groups (JStr "3,7")))).
    right. exists {[ "client_id" := JNum 1 ]}. split; reflexivity.
Defined.

Lemma joinChannel_password_field_witness :
  Bot.trace
    (fst (Bot.joinChannel (JNum 1173) JUndefined JUndefined
            (Scenario.world (Scenario.reply_groups (JStr "3,7"))
               (Scenario.bot [] (JFun 0)))))
  = [ Bot.Sent (Bot.request_of "clientmove"
                  {[ "cid" := JNum 1173; "clid" := JNum 1 ]} []);
      Bot.Replied (Scenario.answer (JStr "3,7")) ]
  /\ Bot.trace
       (fst (Bot.joinChannel (JNum 1173) JUndefined (JStr "")
               (Scenario.world (Scenario.reply_groups (JStr "3,7"))
                  (Scenario.bot [] (JFun 0)))))
     = [ Bot.Sent (Bot.request_of "clientmove"
                     {[ "password" := JStr ""; "cid" := JNum 1173; "clid" := JNum 1 ]} []);
         Bot.Replied (Scenario.answer (JStr "3,7")) ].
Proof.
  pose proof (joinChannel_password_field
                (E := Scenario.env (Scenario.reply_groups (JStr "3,7")))
                (JNum 1173) JUndefined) as K.
  split.
  - destruct (K JUndefined
                (Scenario.world (Scenario.reply_groups (JStr "3,7"))
                   (Scenario.bot [] (JFun 0)))) as [[-> _] _];
      [right; eexists; reflexivity|reflexivity|reflexivity].
  - destruct (K (JStr "")
                (Scenario.world (Scenario.reply_groups (JStr "3,7"))
                   (Scenario.bot [] (JFun 0)))) as [_ [-> _]];
      [right; eexists; reflexivity|discriminate|reflexivity].
Defined.

Lemma onClientMove_catches_errors_witness :
  snd (Bot._onClientMove (Scenario.arrival 1173 42)
         (Scenario.world Scenario.reply_no_clientinfo (Scenario.bot [] (JFun 0))))
  = inr tt
  /\ Bot.trace
       (fst (Bot._onClientMove (Scenario.arrival 1173 42)
               (Scenario.world Scenario.reply_no_clientinfo (Scenario.bot [] (JFun 0)))))
     = [ Bot.Sent (Bot.request_of "clientinfo" {[ "clid" := JNum 42 ]} ["groups"]);
         Bot.Replied (inl (QueryError 512 "invalid clientID"));
         Bot.ConsoleError
           [ Bot.LStr "Error when running for client ID"; Bot.LVal (JNum 42);
             Bot.LErr (QueryError 512 "invalid clientID") ] ].
Proof.
  destruct (onClientMove_catches_errors
              (E := Scenario.env Scenario.reply_no_clientinfo)
              (Scenario.arrival 1173 42)
              (Scenario.world Scenario.reply_no_clientinfo (Scenario.bot [] (JFun 0)))
              {[ "client_id" := JNum 1 ]})
    as (Hreturns & _ & Hquery & _); [reflexivity|reflexivity|reflexivity|].
  split; [exact Hreturns|].
  rewrite (Hquery (QueryError 512 "invalid clientID")); reflexivity.
Defined.

(** ** The example scenario *)

(** Client 42 moves into channel 1173 and every group is allowed: the
    groups are queried and the success callback pokes, messages and
    kicks. *)
Example move_into_channel_runs_success :
  Bot.trace
    (fst (Bot._onClientMove (Scenario.arrival 1173 42)
            (Scenario.world (Scenario.reply_groups (JStr "3,7"))
               (Scenario.bot [] (JFun 0)))))
  = Bot.exchanges
      [ (Bot.request_of "clientinfo" {[ "clid" := JNum 42 ]} ["groups"],
         Scenario.answer (JStr "3,7")) ]
    ++ [ Bot.Invoked "success" (JNum 42) ]
    ++ Bot.exchanges
         [ (Bot.request_of "clientpoke"
              {[ "clid" := JNum 42; "msg" := JStr "test success poke" ]} [],
            Scenario.answer (JStr "3,7"));
           (Bot.request_of "sendtextmessage"
              {[ "target" := JNum 42; "targetmode" := JNum 1; "msg" := JStr "success" ]} [],
            Scenario.answer (JStr "3,7"));
           (Bot.request_of "clientkick"
              {[ "clid" := JNum 42; "reasonid" := JNum 4; "reasonmsg" := JStr "success" ]} [],
            Scenario.answer (JStr "3,7")) ].
Proof. reflexivity. Qed.

(** A success callback that throws: the error is reported and the listener
    returns. *)
Example throwing_handler_is_reported :
  Bot._onClientMove (Scenario.arrival 1173 42)
    (Scenario.world (Scenario.reply_groups (JStr "3,7")) (Scenario.bot [] (JFun 2)))
  = (@Bot.Build_World (Scenario.env (Scenario.reply_groups (JStr "3,7")))
       (Scenario.bot [] (JFun 2)) tt
       (Bot.exchanges
          [ (Bot.request_of "clientinfo" {[ "clid" := JNum 42 ]} ["groups"],
             Scenario.answer (JStr "3,7")) ]
        ++ [ Bot.Invoked "success" (JNum 42);
             Bot.ConsoleError
               [ Bot.LStr "Error when running for client ID"; Bot.LVal (JNum 42);
                 Bot.LErr (Error "handler failed") ] ]),
     inr tt).
Proof. reflexivity. Qed.

(** A list of allowed groups written as strings does find the shared
    group; the builder, however, refuses such a list. *)
Example string_groups_match :
  snd (Bot._hasPermission (JNum 42)
         (Scenario.world (Scenario.reply_groups (JStr "3,7"))
            (Scenario.bot [JStr "5"; JStr "7"] (JFun 0))))
  = inr true
  /\ Factory.valid_arguments (Factory.WithAllowedGroups (Some [JStr "5"; JStr "7"]))
     = false
  /\ Factory.valid_arguments (Factory.WithAllowedGroups (Some [JNum 5; JNum 7]))
     = true.
Proof. repeat split; reflexivity. Qed.

(** A single group comes back as a number and is compared as the string
    of its digits: still no integer of the list equals it. *)
Example single_group_is_missed :
  snd (Bot._hasPermission (JNum 42)
         (Scenario.world (Scenario.reply_groups (JNum 7))
            (Scenario.bot [JNum 7] (JFun 0))))
  = inr false.
Proof. reflexivity. Qed.

(** * Further properties *)

(** ** Splitting strings and intersecting lists *)

Lemma split_cons sep s : exists seg segs, split sep s = seg :: segs.
Proof.
  destruct s as [|c rest]; simpl; [eauto|].
  destruct (Ascii.eqb c sep); [eauto|].
  destruct (split sep rest); eauto.
Qed.

Lemma join_cons sep seg seg' segs :
  join sep (seg :: seg' :: segs) = seg +:+ String sep (join sep (seg' :: segs)).
Proof. reflexivity. Qed.

Lemma join_push sep c seg segs :
  join sep (String c seg :: segs) = String c (join sep (seg :: segs)).
Proof. destruct segs; reflexivity. Qed.

Lemma occurs_app c s1 s2 : occurs c (s1 +:+ s2) = occurs c s1 || occurs c s2.
Proof.
  induction s1 as [|c' s1 IH]; simpl; [reflexivity|].
  now rewrite IH, orb_assoc.
Qed.


(** X1. Splitting loses nothing and leaves no separator behind: joining
    the segments of a string with the separator gives the string back,
    and no segment contains the separator. *)
Theorem split_join_round_trip sep s :
  join sep (split sep s) = s
  /\ Forall (fun seg => occurs sep seg = false) (split sep s).
Proof.
  induction s as [|c rest [IHj IHo]]; simpl.
  - split; [reflexivity|]. repeat constructor.
  - destruct (Ascii.eqb_spec c sep) as [->|Hne].
    + destruct (split_cons sep rest) as (seg & segs & Hs). rewrite Hs in *.
      split.
      * rewrite join_cons, IHj. reflexivity.
      * constructor; [reflexivity|exact IHo].
    + destruct (split_cons sep rest) as (seg & segs & Hs). rewrite Hs in *.
      split.
      * rewrite join_push, IHj. reflexivity.
      * inversion IHo as [|? ? Hseg Hsegs]; subst. constructor; [|exact Hsegs].
        simpl. rewrite Hseg, orb_false_r. now apply Ascii.eqb_neq.
Qed.

Lemma sameValueZero_eq a b : sameValueZero a b = true <-> a = b.
Proof.
  destruct a, b; simpl; split; intros H; try discriminate; try reflexivity.
  - f_equal. now apply Bool.eqb_prop.
  - injection H as ->. apply Bool.eqb_reflx.
  - f_equal. now apply Z.eqb_eq.
  - injection H as ->. apply Z.eqb_refl.
  - f_equal. now apply String.eqb_eq.
  - injection H as ->. apply String.eqb_refl.
  - f_equal. now apply Nat.eqb_eq.
  - injection H as ->. apply Nat.eqb_refl.
Qed.

Lemma includes_elem l x : includes l x = true <-> x ∈ l.
Proof.
  unfold includes. rewrite existsb_exists. split.
  - intros (y & Hin & Heq). apply sameValueZero_eq in Heq as ->.
    now apply list_elem_of_In.
  - intros Hin. exists x. split; [now apply list_elem_of_In|].
    now apply sameValueZero_eq.
Qed.

Lemma intersection_fold a b acc x :
  x ∈ fold_left
        (fun result x =>
           if negb (includes result x) && includes b x then result ++ [x] else result)
        a acc
  <-> x ∈ acc \/ (x ∈ a /\ x ∈ b).
Proof.
  revert acc. induction a as [|y a IH]; intros acc; simpl.
  - rewrite elem_of_nil. tauto.
  - rewrite IH, elem_of_cons.
    destruct (includes acc y) eqn:Hacc, (includes b y) eqn:Hb; simpl.
    + apply includes_elem in Hacc. split; [tauto|].
      intros [H|[[->|H] Hxb]]; tauto.
    + apply includes_elem in Hacc. split; [tauto|].
      intros [H|[[->|H] Hxb]]; tauto.
    + apply includes_elem in Hb. rewrite elem_of_app, list_elem_of_singleton.
      split; [intros [[H| ->]|H]; tauto|]. intros [H|[[->|H] Hxb]]; tauto.
    + assert (y ∉ b) as Hnb by (rewrite <- includes_elem; congruence).
      split; [tauto|]. intros [H|[[->|H] Hxb]]; tauto.
Qed.

Lemma intersection_fold_NoDup a b acc :
  NoDup acc ->
  NoDup (fold_left
           (fun result x =>
              if negb (includes result x) && includes b x then result ++ [x] else result)
           a acc).
Proof.
  revert acc. induction a as [|y a IH]; intros acc Hacc; simpl; [exact Hacc|].
  apply IH. destruct (includes acc y) eqn:Hy; simpl; [exact Hacc|].
  destruct (includes b y); [|exact Hacc].
  apply NoDup_app. split; [exact Hacc|]. split; [|apply NoDup_singleton].
  intros x Hx Hx'. apply list_elem_of_singleton in Hx' as ->.
  apply includes_elem in Hx. congruence.
Qed.

Lemma elem_of_intersection a b x : x ∈ intersection a b <-> x ∈ a /\ x ∈ b.
Proof. unfold intersection. rewrite intersection_fold, elem_of_nil. tauto. Qed.

(** X2. A value is in [intersection a b] exactly when it is in both
    lists, compared without conversion between types, and the result has
    no repetition. *)
Theorem intersection_spec a b :
  (forall x, x ∈ intersection a b <-> x ∈ a /\ x ∈ b)
  /\ NoDup (intersection a b).
Proof.
  split.
  - apply elem_of_intersection.
  - apply intersection_fold_NoDup. constructor.
Qed.

(** ** The permission check *)

Section PermissionFacts.

Import Bot.

Context {E : Environment}.

Implicit Types (w : World E) (clid : JsValue).

Lemma toString_state v w : fst (toString v w) = w.
Proof. now destruct v. Qed.

Lemma toString_world v w w' : snd (toString v w) = snd (toString v w').
Proof. now destruct v. Qed.

Lemma _hasPermission_then_state (response : gmap string JsValue) w :
  fst (_hasPermission_then response w) = w.
Proof.
  unfold _hasPermission_then, self, mbind, M_bind.
  pose proof (toString_state (prop response "client_servergroups") w) as H.
  destruct (toString _ w) as [w' [e|s]]; simpl in *; now subst.
Qed.

Lemma length_zero {A} (l : list A) : Nat.eqb (length l) 0 = true <-> l = [].
Proof. destruct l; simpl; split; intros; try discriminate; reflexivity. Qed.

Lemma length_positive {A} (l : list A) :
  Nat.ltb 0 (length l) = true <-> exists x, x ∈ l.
Proof.
  destruct l as [|x l]; simpl; split; intros H; try discriminate.
  - destruct H as [x H]. now apply elem_of_nil in H.
  - exists x. now left.
  - reflexivity.
Qed.

(** What the callback of the group query answers for the reported
    string [s]. *)
Lemma _hasPermission_then_grants (response : gmap string JsValue) w s :
  snd (toString (prop response "client_servergroups") w) = inr s ->
  exists allowed : bool,
    _hasPermission_then response w = (w, inr allowed)
    /\ (allowed = true <->
        _allowedGroupIds (this w) = []
        \/ exists seg, seg ∈ split ","%char s /\ JStr seg ∈ _allowedGroupIds (this w)).
Proof.
  intros Hs.
  pose proof (toString_state (prop response "client_servergroups") w) as Hw.
  unfold _hasPermission_then, self, mbind, M_bind.
  destruct (toString _ w) as [w' [e|s']]; simpl in *; [discriminate|].
  injection Hs as ->. subst w'. eexists. split; [reflexivity|].
  rewrite orb_true_iff, length_zero, length_positive.
  apply or_iff_compat_l. split.
  - intros [x Hx]. apply elem_of_intersection in Hx as [Ha Hb].
    apply list_elem_of_fmap in Hb as (seg & -> & Hseg). eauto.
  - intros (seg & Hseg & Ha). exists (JStr seg).
    apply elem_of_intersection. split; [exact Ha|].
    apply list_elem_of_fmap. eauto.
Qed.

Lemma _hasPermission_state clid w :
  fst (_hasPermission clid w) =
  exchanged w (request_of "clientinfo" {[ "clid" := clid ]} ["groups"]).
Proof.
  rewrite _hasPermission_run.
  destruct (snd (respond E (net w) _)); [reflexivity|].
  apply _hasPermission_then_state.
Qed.

Lemma _hasPermission_grants clid w n (response : gmap string JsValue) s :
  respond E (net w) (request_of "clientinfo" {[ "clid" := clid ]} ["groups"])
  = (n, inr response) ->
  snd (toString (prop response "client_servergroups") w) = inr s ->
  exists allowed : bool,
    _hasPermission clid w =
    (exchanged w (request_of "clientinfo" {[ "clid" := clid ]} ["groups"]), inr allowed)
    /\ (allowed = true <->
        _allowedGroupIds (this w) = []
        \/ exists seg, seg ∈ split ","%char s /\ JStr seg ∈ _allowedGroupIds (this w)).
Proof.
  intros Hr Hs. rewrite _hasPermission_run, Hr. simpl snd. cbv iota.
  destruct (_hasPermission_then_grants response
              (exchanged w (request_of "clientinfo" {[ "clid" := clid ]} ["groups"])) s)
    as (allowed & Hrun & Hiff).
  { now rewrite (toString_world _ _ w). }
  exists allowed. split; [exact Hrun|exact Hiff].
Qed.

(** X3. When the query is answered and reports the groups as the string
    [s], [_hasPermission] resolves to [true] exactly when no group is
    configured or one of the configured values is the string of a
    comma-separated segment of [s]; a configured number never is. *)
Theorem hasPermission_grants_iff clid w n (response : gmap string JsValue) s :
  respond E (net w) (request_of "clientinfo" {[ "clid" := clid ]} ["groups"])
  = (n, inr response) ->
  snd (toString (prop response "client_servergroups") w) = inr s ->
  exists allowed : bool,
    _hasPermission clid w =
    (exchanged w (request_of "clientinfo" {[ "clid" := clid ]} ["groups"]), inr allowed)
    /\ (allowed = true <->
        _allowedGroupIds (this w) = []
        \/ exists seg, seg ∈ split ","%char s /\ JStr seg ∈ _allowedGroupIds (this w)).
Proof. apply _hasPermission_grants. Qed.

(** X4. [_hasPermission] makes one exchange, the group query, whatever
    the configuration and the answer; and when the answer has no
    [client_servergroups] the promise rejects with a [TypeError], also
    when no group is configured. *)
Theorem hasPermission_needs_reported_groups clid w :
  fst (_hasPermission clid w) =
  exchanged w (request_of "clientinfo" {[ "clid" := clid ]} ["groups"])
  /\ (forall n (response : gmap string JsValue),
        respond E (net w) (request_of "clientinfo" {[ "clid" := clid ]} ["groups"])
        = (n, inr response) ->
        response !! "client_servergroups" = None ->
        exists message, snd (_hasPermission clid w) = inl (TypeError message)).
Proof.
  split; [apply _hasPermission_state|].
  - intros n response Hr Hnone. rewrite _hasPermission_run, Hr. simpl snd. cbv iota.
    unfold _hasPermission_then, self, mbind, M_bind, prop. rewrite Hnone.
    simpl. eauto.
Qed.




End PermissionFacts.

(** ** The listeners and the keep-alive *)

Section SessionFacts.

Import Bot.

Context {E : Environment}.

Implicit Types (w : World E) (clid cid : JsValue).

(** *** What leaves the bot object alone *)

Section Keeps.

Context {X : Type} (f : t -> X).

Lemma keeps_ret {A} (x : A) : keeps f (A := A) (mret x).
Proof. intros w. reflexivity. Qed.

Lemma keeps_throw {A} e : keeps f (A := A) (throw e).
Proof. intros w. reflexivity. Qed.

Lemma keeps_self : keeps f self.
Proof. intros w. reflexivity. Qed.

Lemma keeps_bind {A B} (m : M (World E) A) (k : A -> M (World E) B) :
  keeps f m -> (forall x, keeps f (k x)) -> keeps f (m ≫= k).
Proof.
  intros Hm Hk w. specialize (Hm w). unfold mbind, M_bind.
  destruct (m w) as [w1 [e|x]]; simpl in *; [exact Hm|].
  now rewrite (Hk x w1).
Qed.

Lemma keeps_catch {A} (p : M (World E) A) h :
  keeps f p -> (forall e, keeps f (h e)) -> keeps f (catch p h).
Proof.
  intros Hp Hh w. specialize (Hp w). unfold catch.
  destruct (p w) as [w1 [e|x]]; simpl in *; [|exact Hp].
  now rewrite (Hh e w1).
Qed.

Lemma keeps_detach {A} (p : M (World E) A) : keeps f p -> keeps f (detach p).
Proof. intros Hp w. exact (Hp w). Qed.

Lemma keeps_effect e : keeps f (effect e).
Proof. intros w. reflexivity. Qed.

Lemma keeps_send command params options : keeps f (_send command params options).
Proof. intros w. now rewrite _send_run. Qed.

Lemma keeps_forEach {A} (l : list A) (k : A -> M (World E) unit) :
  (forall x, keeps f (k x)) -> keeps f (forEach l k).
Proof.
  intros Hk. induction l as [|x l IH]; simpl.
  - apply keeps_ret.
  - apply keeps_bind; [apply Hk|intros _; exact IH].
Qed.

Lemma keeps_whoami_prop k : keeps f (whoami_prop k).
Proof.
  apply keeps_bind; [apply keeps_self|]. intros b.
  destruct (whoami b); [apply keeps_ret|apply keeps_throw].
Qed.

Lemma keeps_toString v : keeps f (toString v).
Proof. destruct v; simpl; first [apply keeps_ret|apply keeps_throw]. Qed.

Lemma keeps_joinChannel_payload cid clid password :
  keeps f (joinChannel_payload cid clid password).
Proof.
  apply keeps_bind.
  - destruct (isUndefined clid); [apply keeps_whoami_prop|apply keeps_ret].
  - intros x. apply keeps_ret.
Qed.

Lemma keeps_run_call c : keeps f (run_call c).
Proof.
  destruct c; simpl; try (apply keeps_detach, keeps_send).
  apply keeps_bind; [apply keeps_joinChannel_payload|].
  intros payload. apply keeps_detach, keeps_send.
Qed.

Lemma keeps_call_action key clientId : keeps f (call_action key clientId).
Proof.
  apply keeps_bind; [apply keeps_self|]. intros b.
  destruct (actions_get (_actions b) key); try apply keeps_throw.
  apply keeps_bind; [apply keeps_effect|]. intros _.
  destruct (body (closure E ref) b clientId) as [calls thrown].
  apply keeps_bind.
  - apply keeps_forEach, keeps_run_call.
  - intros _. destruct thrown; [apply keeps_throw|apply keeps_ret].
Qed.

Lemma keeps__hasPermission clid : keeps f (_hasPermission clid).
Proof.
  apply keeps_bind; [apply keeps_send|]. intros response.
  apply keeps_bind; [apply keeps_self|]. intros b.
  apply keeps_bind; [apply keeps_toString|]. intros s. apply keeps_ret.
Qed.

Lemma keeps_emit n : keeps f (emit n).
Proof.
  destruct n as [moveEvent|viewEvent]; simpl.
  - apply keeps_bind; [apply keeps_self|]. intros b.
    destruct (negb _); [apply keeps_ret|].
    apply keeps_bind; [apply keeps_whoami_prop|]. intros me.
    destruct (strict_eq _ me); [apply keeps_ret|].
    apply keeps_detach, keeps_catch.
    + apply keeps_bind; [apply keeps__hasPermission|].
      intros allowed. apply keeps_call_action.
    + intros e. apply keeps_effect.
  - apply keeps_detach.
    apply keeps_bind; [apply keeps_self|]. intros b.
    destruct (negb _); [apply keeps_ret|].
    apply keeps_bind; [apply keeps_send|intros _; apply keeps_ret].
Qed.

Lemma keeps_keepAlive : keeps f keepAlive.
Proof.
  apply keeps_catch.
  - apply keeps_bind; [apply keeps_send|intros _; apply keeps_ret].
  - intros e. apply keeps_effect.
Qed.

Lemma keeps_running os : keeps f (running os).
Proof.
  induction os as [|o os IH]; simpl.
  - apply keeps_ret.
  - apply keeps_bind; [|intros _; exact IH].
    destruct o; [apply keeps_emit|apply keeps_keepAlive].
Qed.

End Keeps.

Lemma _onClientMove_returns (moveEvent : gmap string JsValue) w :
  is_Some (whoami (this w)) -> snd (_onClientMove moveEvent w) = inr tt.
Proof.
  intros [me Hme]. unfold _onClientMove, self. unfold mbind at 1, M_bind at 1.
  destruct (negb _); [reflexivity|].
  unfold mbind at 1, M_bind at 1. rewrite (whoami_prop_known _ _ _ Hme).
  destruct (strict_eq _ _); reflexivity.
Qed.

Lemma keepAlive_returns w : snd (keepAlive w) = inr tt.
Proof.
  unfold keepAlive, catch, mbind, M_bind. rewrite _send_run.
  now destruct (snd (respond E (net w) _)).
Qed.

Lemma occur_returns o w : is_Some (whoami (this w)) -> snd (occur o w) = inr tt.
Proof.
  intros Hme. destruct o as [[moveEvent|viewEvent]|]; simpl.
  - now apply _onClientMove_returns.
  - reflexivity.
  - apply keepAlive_returns.
Qed.

(** X6. Whatever notifications arrive and however often the keep-alive
    fires, the bot object stays as it is: configuration and identity are
    never written.  And once the identity is known, nothing that occurs
    makes a listener or the timer callback throw. *)
Theorem running_session_is_stable (os : list Occurrence) w :
  this (fst (running os w)) = this w
  /\ (is_Some (whoami (this w)) -> snd (running os w) = inr tt).
Proof.
  split; [apply (keeps_running id)|].
  revert w. induction os as [|o os IH]; intros w Hme; [reflexivity|].
  simpl. unfold mbind, M_bind.
  pose proof (occur_returns o w Hme) as Hret.
  pose proof (keeps_running whoami [o] w) as Hkeep.
  simpl in Hkeep. unfold mbind, M_bind in Hkeep.
  destruct (occur o w) as [w1 [e|[]]]; simpl in *; [discriminate|].
  apply IH. now rewrite Hkeep.
Qed.

(** X7. A move event into the configured channel that arrives while the
    identity is still unknown makes the listener throw a [TypeError]:
    nothing is sent, and the notifications after it are not handled. *)
Theorem move_before_identity_stops_loop (moveEvent : gmap string JsValue) w rest :
  strict_eq (prop moveEvent "ctid") (_channelId (this w)) = true ->
  whoami (this w) = None ->
  exists message,
    eventLoop (ClientMoved moveEvent :: rest) w = (w, inl (TypeError message)).
Proof.
  intros Hc Hnone. simpl. unfold mbind at 1, M_bind at 1.
  unfold _onClientMove, self. unfold mbind at 1, M_bind at 1.
  rewrite Hc. cbn [negb]. unfold mbind at 1, M_bind at 1.
  unfold whoami_prop, self, mbind, M_bind. rewrite Hnone. simpl. eauto.
Qed.

(** X8. One run of the keep-alive makes one [whoami] exchange and always
    returns: an error is handed to [console.error] and goes no further,
    and the answer is dropped, so the stored identity is not refreshed. *)
Theorem keepAlive_never_fails w :
  let query := request_of "whoami" ∅ [] in
  keepAlive w =
  (match snd (respond E (net w) query) with
   | inr _ => exchanged w query
   | inl e =>
       {| this := this w;
          net := net (exchanged w query);
          trace := trace (exchanged w query) ++ [ConsoleError [LErr e]] |}
   end, inr tt).
Proof.
  intros query. unfold keepAlive, catch, mbind, M_bind. rewrite _send_run.
  fold query. now destruct (snd (respond E (net w) query)).
Qed.

(** X9. [joinChannel] without a client id reads the stored identity:
    while there is none it throws a [TypeError] and sends nothing,
    whatever the channel and the password. *)
Theorem joinChannel_needs_identity cid password w :
  whoami (this w) = None ->
  exists message,
    joinChannel cid JUndefined password w = (w, inl (TypeError message)).
Proof.
  intros Hnone.
  unfold joinChannel, joinChannel_payload, whoami_prop, self, mbind, M_bind.
  simpl. rewrite Hnone. simpl. eauto.
Qed.

End SessionFacts.

(** ** Dispatch and start-up *)

Section DispatchFacts.

Import Bot.

Context {E : Environment}.

Implicit Types (w : World E) (clid cid : JsValue).

Lemma appends_run_call_io (P : Effect -> Prop) c :
  (forall req, P (Sent req)) -> (forall outcome, P (Replied outcome)) ->
  appends P (run_call c).
Proof.
  intros Hs Hr. destruct c; simpl;
    try (apply appends_detach, appends_send; [apply Hs|apply Hr]).
  apply appends_bind.
  - apply appends_bind.
    + destruct (isUndefined clid); [apply appends_whoami_prop|apply appends_ret].
    + intros x. apply appends_ret.
  - intros payload. apply appends_detach, appends_send; [apply Hs|apply Hr].
Qed.

Lemma call_action_run key clientId w ref :
  actions_get (_actions (this w)) key = JFun ref ->
  call_action key clientId w =
  (forEach (fst (body (closure E ref) (this w) clientId)) run_call ;;
   match snd (body (closure E ref) (this w) clientId) with
   | Some e => throw e
   | None => mret tt
   end)
    {| this := this w; net := net w; trace := trace w ++ [Invoked key clientId] |}.
Proof.
  intros H. unfold call_action, self. unfold mbind at 1, M_bind at 1.
  rewrite H. unfold effect, modify. unfold mbind at 1, M_bind at 1.
  now destruct (body (closure E ref) (this w) clientId).
Qed.

(** X10. On a move event into the configured channel by another client,
    once the check has resolved the listener calls one handler, [success]
    when the answer is [true] and [noPerms] when it is [false], right
    after the group query, and calls no handler again. *)
Theorem move_dispatches_one_handler
    (moveEvent : gmap string JsValue) w me (allowed : bool) ref :
  strict_eq (prop moveEvent "ctid") (_channelId (this w)) = true ->
  whoami (this w) = Some me ->
  strict_eq (prop moveEvent "clid") (prop me "client_id") = false ->
  let clientId := prop moveEvent "clid" in
  let query := request_of "clientinfo" {[ "clid" := clientId ]} ["groups"] in
  let key := if allowed then "success" else "noPerms" in
  snd (_hasPermission clientId w) = inr allowed ->
  actions_get (_actions (this w)) key = JFun ref ->
  exists rest,
    trace (fst (_onClientMove moveEvent w)) =
    trace w
      ++ [Sent query; Replied (snd (respond E (net w) query)); Invoked key clientId]
      ++ rest
    /\ Forall no_invocation rest.
Proof.
  intros Hc Hme Hs clientId query key Hallowed Hfun.
  rewrite (_onClientMove_run _ _ _ Hc Hme Hs). fold clientId.
  unfold detach. cbn [fst]. unfold catch, guard_chain.
  unfold mbind at 1, M_bind at 1.
  pose proof (_hasPermission_state clientId w) as Hstate. fold query in Hstate.
  destruct (_hasPermission clientId w) as [w1 r]. simpl in Hallowed, Hstate.
  subst r w1. fold key.
  rewrite (call_action_run key clientId (exchanged w query) ref Hfun).
  assert (appends no_invocation
            (catch
               (forEach (fst (body (closure E ref) (this (exchanged w query)) clientId))
                  run_call ;;
                match snd (body (closure E ref) (this (exchanged w query)) clientId) with
                | Some e => throw e
                | None => mret tt
                end)
               (fun err =>
                  console_error
                    [LStr "Error when running for client ID"; LVal clientId; LErr err])))
    as Happ.
  { apply appends_catch; [|intros e; apply appends_effect; exact I].
    apply appends_bind.
    - apply appends_forEach. intros c.
      apply appends_run_call_io; intros; exact I.
    - intros _. destruct (snd _); [apply appends_throw|apply appends_ret]. }
  destruct (Happ {| this := this (exchanged w query);
                    net := net (exchanged w query);
                    trace := trace (exchanged w query) ++ [Invoked key clientId] |})
    as (rest & Htrace & Hrest).
  exists rest. split; [|exact Hrest].
  etransitivity; [exact Htrace|]. simpl. now rewrite <- !app_assoc.
Qed.

Lemma strict_eq_number v c : strict_eq v (JNum c) = false <-> v <> JNum c.
Proof.
  destruct v; simpl; split; intros H; try discriminate; try reflexivity.
  - intros [= ->]. now rewrite Z.eqb_refl in H.
  - apply Z.eqb_neq. congruence.
Qed.

(** X11. With a number as the configured channel, both listeners do
    nothing at all for a notification whose [ctid] is anything but that
    number: another number, the same digits as a string, or no [ctid]. *)
Theorem listeners_ignore_other_ctid (event : gmap string JsValue) w c :
  _channelId (this w) = JNum c ->
  prop event "ctid" <> JNum c ->
  _onClientMove event w = (w, inr tt) /\ _onEnterView event w = (w, inr tt).
Proof.
  intros Hch Hne. apply strict_eq_number in Hne.
  unfold _onClientMove, _onEnterView, self, mbind, M_bind.
  rewrite Hch, Hne. split; reflexivity.
Qed.

Lemma keeps_configuration__whoami : keeps configuration (_whoami (E := E)).
Proof.
  intros w. unfold _whoami, mbind, M_bind. rewrite _send_run.
  now destruct (snd (respond E (net w) _)).
Qed.

(** X12. [start()] writes nothing but the identity: credentials,
    connection info, channel, allowed groups and actions of the bot are
    after it what they were before, whether it succeeds or fails. *)
Theorem start_keeps_configuration w :
  configuration (this (fst (start w))) = configuration (this w).
Proof.
  revert w. change (keeps configuration (start (E := E))).
  unfold start, _connect.
  repeat first
    [ apply keeps_effect
    | apply keeps_send
    | apply keeps_self
    | apply keeps_configuration__whoami
    | apply keeps_joinChannel_payload
    | apply keeps_bind; [|intros ?] ].
Qed.

Lemma start_success_identity w :
  snd (start w) = inr tt -> is_Some (whoami (this (fst (start w)))).
Proof.
  unfold start, _connect, _login, _useServer, _changeName, _whoami, joinChannel,
    joinChannel_payload, _notifyForEvents, whoami_prop, self, effect, modify,
    mbind, M_bind, mret, M_ret, throw, _send.
  cbn [fst snd this net trace isUndefined negb].
  repeat
    (match goal with
     | |- context [respond E ?n ?r] =>
         destruct (respond E n r) as [? [?|?]]
     end;
     cbn [fst snd this net trace whoami _credentials _connectionInfo _channelId
          _allowedGroupIds _actions isUndefined negb];
     try discriminate).
  intros _. eexists. reflexivity.
Qed.

(** X13. After a [start()] that succeeded, no notification and no run of
    the keep-alive makes the session throw, whatever the query client
    answers and whatever the action callbacks do. *)
Theorem started_session_never_stops w (os : list Occurrence) :
  snd (start w) = inr tt -> snd (running os (fst (start w))) = inr tt.
Proof.
  intros Hok. apply start_success_identity in Hok.
  revert Hok. generalize (fst (start w)) as w1. clear w.
  induction os as [|o os IH]; intros w Hme; [reflexivity|].
  simpl. unfold mbind, M_bind.
  pose proof (occur_returns o w Hme) as Hret.
  pose proof (keeps_running whoami [o] w) as Hkeep.
  simpl in Hkeep. unfold mbind, M_bind in Hkeep.
  destruct (occur o w) as [w1 [e|[]]]; simpl in *; [discriminate|].
  apply IH. now rewrite Hkeep.
Qed.

End DispatchFacts.

Section HandshakeFacts.

Import Bot.

Context {E : Environment}.

(** X14. When the query client answers the six requests of the
    handshake, made in order with the values of the bot (login name and
    password, server port, nickname, channel id, and in the move the
    client id of the [whoami] answer), [start()] succeeds: its effects are
    the two listeners, those six exchanges and the keep-alive timer, and
    the [whoami] answer is the stored identity. *)
Theorem start_success_exchanges (w : World E) (me : gmap string JsValue) log n :
  converse (net w) (handshake_requests (this w) me) = (log, n) ->
  forallb answered log = true ->
  (exists req, log !! 3 = Some (req, inr me)) ->
  start w =
  ({| this :=
        {| _credentials := _credentials (this w);
           _connectionInfo := _connectionInfo (this w);
           _channelId := _channelId (this w);
           _allowedGroupIds := _allowedGroupIds (this w);
           _actions := _actions (this w);
           whoami := Some me |};
      net := n;
      trace :=
        trace w ++ [Listening "clientmoved"; Listening "cliententerview"]
          ++ exchanges log ++ [SetInterval 60000] |},
   inr tt).
Proof.
  unfold handshake_requests, request_of. cbn [converse].
  destruct (respond E (net w) _) as [n1 o1] eqn:H1.
  destruct (respond E n1 _) as [n2 o2] eqn:H2.
  destruct (respond E n2 _) as [n3 o3] eqn:H3.
  destruct (respond E n3 _) as [n4 o4] eqn:H4.
  destruct (respond E n4 _) as [n5 o5] eqn:H5.
  destruct (respond E n5 _) as [n6 o6] eqn:H6.
  intros [= <- <-] Hans [req Hme].
  cbn in Hme. injection Hme as _ ->.
  unfold answered in Hans. cbn in Hans.
  destruct o1 as [|r1]; [discriminate|]. destruct o2 as [|r2]; [discriminate|].
  destruct o3 as [|r3]; [discriminate|]. destruct o5 as [|r5]; [discriminate|].
  destruct o6 as [|r6]; [discriminate|]. clear Hans.
  unfold start, _connect, _login, _useServer, _changeName, _whoami, joinChannel,
    joinChannel_payload, _notifyForEvents, whoami_prop, self, effect, modify,
    mbind, M_bind, mret, M_ret, throw, _send.
  cbn [fst snd this net trace isUndefined negb].
  rewrite H1.
  cbn [fst snd this net trace whoami _credentials _connectionInfo _channelId
       _allowedGroupIds _actions isUndefined negb].
  rewrite H2.
  cbn [fst snd this net trace whoami _credentials _connectionInfo _channelId
       _allowedGroupIds _actions isUndefined negb].
  rewrite H3.
  cbn [fst snd this net trace whoami _credentials _connectionInfo _channelId
       _allowedGroupIds _actions isUndefined negb].
  rewrite H4.
  cbn [fst snd this net trace whoami _credentials _connectionInfo _channelId
       _allowedGroupIds _actions isUndefined negb].
  rewrite H5.
  cbn [fst snd this net trace whoami _credentials _connectionInfo _channelId
       _allowedGroupIds _actions isUndefined negb].
  rewrite H6.
  cbn [fst snd this net trace whoami _credentials _connectionInfo _channelId
       _allowedGroupIds _actions isUndefined negb].
  rewrite <- !app_assoc. reflexivity.
Qed.

End HandshakeFacts.

(** ** Chains of setter calls *)

Section ChainFacts.

Import Factory.

Lemma held_determines (a b : t) : (forall s, held s a = held s b) -> a = b.
Proof.
  intros H.
  pose proof (H SCredentials) as H1. pose proof (H SActions) as H2.
  pose proof (H SConnectionInfo) as H3. pose proof (H SChannelId) as H4.
  pose proof (H SAllowedGroups) as H5. clear H.
  destruct a as [c1 a1 i1 ch1 g1], b as [c2 a2 i2 ch2 g2]. simpl in *.
  assert (c1 = c2) as ->.
  { destruct c1 as [[]|], c2 as [[]|]; simpl in *; congruence. }
  assert (a1 = a2) as ->.
  { destruct a1 as [[]|], a2 as [[]|]; simpl in *; congruence. }
  assert (i1 = i2) as ->.
  { destruct i1 as [[]|], i2 as [[]|]; simpl in *; congruence. }
  assert (ch1 = ch2) as ->.
  { destruct ch1, ch2; simpl in *; congruence. }
  assert (g1 = g2) as ->.
  { destruct g1, g2; simpl in *; congruence. }
  reflexivity.
Qed.

(** X15. A builder is determined by the last valid call of each of the
    five setters: two chains of calls that agree on those, whatever else
    they contain and in whatever order, leave equal builders. *)
Theorem configure_depends_on_last_valid_calls (calls1 calls2 : list Setter) :
  (forall s, explicit <$> last_set s calls1 = explicit <$> last_set s calls2) ->
  configure calls1 = configure calls2.
Proof.
  intros H. apply held_determines. intros s. rewrite !configure_holds. apply H.
Qed.

Lemma configure_app calls1 calls2 :
  configure (calls1 ++ calls2) =
  fold_left (fun this c => fst (call c this)) calls2 (configure calls1).
Proof. unfold configure. apply fold_left_app. Qed.

Lemma call_state c this :
  fst (call c this) = if valid_arguments c then assigned c this else this.
Proof.
  destruct (valid_arguments c) eqn:Hv.
  - now rewrite call_valid.
  - now destruct (call_invalid c this Hv) as [m ->].
Qed.

(** X16. Calls of two different setters can be swapped anywhere in a
    chain without changing the builder. *)
Theorem different_setters_commute (pre post : list Setter) (c1 c2 : Setter) :
  slice_of c1 <> slice_of c2 ->
  configure (pre ++ c1 :: c2 :: post) = configure (pre ++ c2 :: c1 :: post).
Proof.
  intros Hne. rewrite !configure_app. simpl. f_equal.
  rewrite !call_state.
  destruct (valid_arguments c1), (valid_arguments c2); try reflexivity.
  destruct c1, c2; simpl in *; try reflexivity; contradiction.
Qed.

(** X17. A call that is rejected can be left out of a chain, and so can
    a call that is followed at once by a valid call of the same setter:
    the builder is the same. *)
Theorem dropped_calls (pre post : list Setter) (c1 c2 : Setter) :
  (valid_arguments c1 = false ->
   configure (pre ++ c1 :: post) = configure (pre ++ post))
  /\ (slice_of c1 = slice_of c2 -> valid_arguments c2 = true ->
      configure (pre ++ c1 :: c2 :: post) = configure (pre ++ c2 :: post)).
Proof.
  split.
  - intros Hv. rewrite !configure_app. simpl. now rewrite call_state, Hv.
  - intros Hs Hv. rewrite !configure_app. simpl. f_equal.
    rewrite !call_state, Hv.
    destruct (valid_arguments c1); [|reflexivity].
    destruct c1, c2; simpl in *; try discriminate; reflexivity.
Qed.

End ChainFacts.

(** ** What [build] returns *)

Section BuildFacts.

Import Factory.

Lemma positive_integer_truthy it : positive_integer it = true -> truthy it = true.
Proof.
  destruct it; try discriminate. unfold positive_integer. simpl.
  intros H. apply Z.ltb_lt in H. apply negb_true_iff, Z.eqb_neq. lia.
Qed.

Lemma positive_integer_isInteger it : positive_integer it = true -> isInteger it = true.
Proof. unfold positive_integer. intros H. now apply andb_prop in H as [H _]. Qed.

(** The outcome of [build] on a builder, by the first slice in the order
    of its tests that no valid call has set. *)
Lemma build_cases calls :
  (exists s, find (unset calls) build_order = Some s
             /\ build (configure calls)
                = (configure calls, inl (Error (missing_message s))))
  \/ (find (unset calls) build_order = None
      /\ exists bot, build (configure calls) = (configure calls, inr bot)
                     /\ validated bot = true /\ Bot.whoami bot = None).
Proof.
  pose proof (configure_holds SCredentials calls) as K1.
  pose proof (configure_holds SActions calls) as K2.
  pose proof (configure_holds SConnectionInfo calls) as K3.
  pose proof (configure_holds SChannelId calls) as K4.
  pose proof (configure_holds SAllowedGroups calls) as K5.
  unfold build_order, unset, build, mbind, M_bind, get, throw, mret, M_ret.
  simpl in *.
  destruct (last_set SCredentials calls) as [c1|] eqn:L1; simpl in K1; cycle 1.
  { left. exists SCredentials. split; [reflexivity|].
    destruct (_credentials (configure calls)); [discriminate|reflexivity]. }
  destruct (_credentials (configure calls)) as [cr|]; [|discriminate].
  destruct (last_set SActions calls) as [c2|] eqn:L2; simpl in K2; cycle 1.
  { left. exists SActions. split; [reflexivity|].
    destruct (_actions (configure calls)); [discriminate|reflexivity]. }
  destruct (_actions (configure calls)) as [ac|]; [|discriminate].
  destruct (last_set SConnectionInfo calls) as [c3|] eqn:L3; simpl in K3; cycle 1.
  { left. exists SConnectionInfo. split; [reflexivity|].
    destruct (_connectionInfo (configure calls)); [discriminate|reflexivity]. }
  destruct (_connectionInfo (configure calls)) as [ci|]; [|discriminate].
  destruct (last_set SChannelId calls) as [c4|] eqn:L4; simpl in K4; cycle 1.
  { left. exists SChannelId. split; [reflexivity|].
    destruct (_channelId (configure calls)); try discriminate. reflexivity. }
  apply last_set_valid in L4 as [S4 V4].
  destruct c4 as [| | |ch|]; try discriminate. simpl in K4, V4.
  destruct (isUndefined (_channelId (configure calls))); [discriminate|].
  injection K4 as K4. rewrite K4, (positive_integer_truthy _ V4). simpl.
  destruct (last_set SAllowedGroups calls) as [c5|] eqn:L5; simpl in K5; cycle 1.
  { left. exists SAllowedGroups. split; [reflexivity|].
    destruct (_allowedGroupIds (configure calls)); [discriminate|reflexivity]. }
  destruct (_allowedGroupIds (configure calls)) as [gs|]; [|discriminate].
  right. split; [reflexivity|]. eexists. split; [reflexivity|].
  split; [|reflexivity].
  apply last_set_valid in L1 as [S1 V1]. apply last_set_valid in L2 as [S2 V2].
  apply last_set_valid in L3 as [S3 V3]. apply last_set_valid in L5 as [S5 V5].
  destruct c1 as [u p b| | | |]; try discriminate.
  destruct c2 as [|su n| | |]; try discriminate.
  destruct c3 as [| |a q sp| |]; try discriminate.
  destruct c5 as [| | | |g]; try discriminate.
  destruct cr, ac, ci. simpl in *.
  injection K1 as -> -> ->. injection K2 as -> ->.
  injection K3 as -> -> ->. injection K5 as ->.
  unfold validated. simpl.
  apply andb_prop in V1 as [V1 Vb]. apply andb_prop in V1 as [Vu Vp].
  apply andb_prop in V2 as [Vs Vn].
  apply andb_prop in V3 as [V3 Vsp]. apply andb_prop in V3 as [Va Vq].
  now rewrite Vu, Vp, Vb, Va, Vq, Vsp, V4, V5, Vs, Vn.
Qed.

(** X18. When slices are missing, [build()] throws for the first missing
    one in the order credentials, actions, connection info, channel id,
    allowed groups, with the message of that slice, and leaves the
    builder as it is. *)
Theorem build_reports_first_missing calls s :
  find (unset calls) build_order = Some s ->
  build (configure calls) = (configure calls, inl (Error (missing_message s))).
Proof.
  intros Hs. destruct (build_cases calls) as [(s' & Hs' & Hb)|[Hnone _]].
  - rewrite Hs in Hs'. now injection Hs' as <-.
  - rewrite Hs in Hnone. discriminate.
Qed.


(** X20. A bot that [build()] returns with a non-empty list of allowed
    groups never sees a permission granted: whatever the query client
    answers, [_hasPermission] does not resolve to [true]. *)
Theorem built_allow_list_never_grants calls this bot
    {E : Bot.Environment} (w : Bot.World E) clid :
  build (configure calls) = (this, inr bot) ->
  Bot._allowedGroupIds bot <> [] ->
  Bot.this w = bot ->
  snd (Bot._hasPermission clid w) <> inr true.
Proof.
  intros Hb Hne <-.
  destruct (build_cases calls) as [(s & _ & Hf)|(_ & bot' & Hok & Hv & _)].
  { rewrite Hf in Hb. discriminate. }
  rewrite Hok in Hb. injection Hb as _ ->.
  unfold validated in Hv. repeat (apply andb_prop in Hv as [Hv ?]).
  assert (forallb isInteger (Bot._allowedGroupIds (Bot.this w)) = true) as Hint.
  { apply forallb_forall. intros x Hx.
    apply positive_integer_isInteger.
    match goal with
    | H : forallb positive_integer _ = true |- _ =>
        exact (proj1 (forallb_forall _ _) H x Hx)
    end. }
  rewrite _hasPermission_run.
  destruct (snd (Bot.respond E (Bot.net w) _)) as [e|response]; [discriminate|].
  apply _hasPermission_then_integers; assumption.
Qed.

End BuildFacts.

(** ** The further properties at the example *)

Lemma hasPermission_grants_iff_witness :
  exists allowed : bool,
    Bot._hasPermission (JNum 42)
      (Scenario.world (Scenario.reply_groups (JStr "3,7"))
         (Scenario.bot [JStr "5"; JStr "7"] (JFun 0)))
    = (Bot.exchanged
         (Scenario.world (Scenario.reply_groups (JStr "3,7"))
            (Scenario.bot [JStr "5"; JStr "7"] (JFun 0)))
         (Bot.request_of "clientinfo" {[ "clid" := JNum 42 ]} ["groups"]),
       inr allowed)
    /\ (allowed = true <->
        [JStr "5"; JStr "7"] = []
        \/ exists seg, seg ∈ split ","%char "3,7" /\ JStr seg ∈ [JStr "5"; JStr "7"]).
Proof.
  apply (hasPermission_grants_iff
           (E := Scenario.env (Scenario.reply_groups (JStr "3,7")))
           (JNum 42)
           (Scenario.world (Scenario.reply_groups (JStr "3,7"))
              (Scenario.bot [JStr "5"; JStr "7"] (JFun 0)))
           tt
           {[ "client_id" := JNum 1; "client_servergroups" := JStr "3,7" ]} "3,7");
    reflexivity.
Defined.

Lemma hasPermission_needs_reported_groups_witness :
  exists message,
    snd (Bot._hasPermission (JNum 42)
           (Scenario.world Scenario.reply_nothing (Scenario.bot [] (JFun 0))))
    = inl (TypeError message).
Proof.
  apply (proj2 (hasPermission_needs_reported_groups
                  (E := Scenario.env Scenario.reply_nothing) (JNum 42) _) tt ∅);
    reflexivity.
Defined.


Lemma running_session_is_stable_witness :
  snd (Bot.running
         [ Bot.Notified (Bot.ClientMoved (Scenario.arrival 1173 42)); Bot.Tick;
           Bot.Notified (Bot.ClientEnterView (Scenario.arrival 1173 43)) ]
         (Scenario.world Scenario.reply_no_clientinfo (Scenario.bot [] (JFun 2))))
  = inr tt.
Proof.
  apply (proj2 (running_session_is_stable
                  (E := Scenario.env Scenario.reply_no_clientinfo) _ _)).
  eexists. reflexivity.
Defined.

Lemma move_before_identity_stops_loop_witness :
  exists message,
    Bot.eventLoop
      [ Bot.ClientMoved (Scenario.arrival 1173 42);
        Bot.ClientEnterView (Scenario.arrival 1173 43) ]
      (Scenario.world (Scenario.reply_groups (JStr "3,7")) Scenario.fresh)
    = (Scenario.world (Scenario.reply_groups (JStr "3,7")) Scenario.fresh,
       inl (TypeError message)).
Proof.
  apply (move_before_identity_stops_loop
           (E := Scenario.env (Scenario.reply_groups (JStr "3,7")))); reflexivity.
Defined.

Lemma joinChannel_needs_identity_witness :
  exists message,
    Bot.joinChannel (JNum 1173) JUndefined JUndefined
      (Scenario.world (Scenario.reply_groups (JStr "3,7")) Scenario.fresh)
    = (Scenario.world (Scenario.reply_groups (JStr "3,7")) Scenario.fresh,
       inl (TypeError message)).
Proof.
  apply (joinChannel_needs_identity
           (E := Scenario.env (Scenario.reply_groups (JStr "3,7")))); reflexivity.
Defined.

Lemma move_dispatches_one_handler_witness :
  exists rest,
    Bot.trace
      (fst (Bot._onClientMove (Scenario.arrival 1173 42)
              (Scenario.world (Scenario.reply_groups (JStr "3,7"))
                 (Scenario.bot [JNum 5; JNum 7] (JFun 0)))))
    = [] ++ [ Bot.Sent (Bot.request_of "clientinfo" {[ "clid" := JNum 42 ]} ["groups"]);
              Bot.Replied (Scenario.answer (JStr "3,7"));
              Bot.Invoked "noPerms" (JNum 42) ] ++ rest
    /\ Forall Bot.no_invocation rest.
Proof.
  apply (move_dispatches_one_handler
           (E := Scenario.env (Scenario.reply_groups (JStr "3,7")))
           (Scenario.arrival 1173 42)
           (Scenario.world (Scenario.reply_groups (JStr "3,7"))
              (Scenario.bot [JNum 5; JNum 7] (JFun 0)))
           {[ "client_id" := JNum 1 ]} false 1); reflexivity.
Defined.

Lemma listeners_ignore_other_ctid_witness :
  Bot._onClientMove {[ "ctid" := JStr "1173"; "clid" := JNum 42 ]}
    (Scenario.world (Scenario.reply_groups (JStr "3,7")) (Scenario.bot [] (JFun 0)))
  = (Scenario.world (Scenario.reply_groups (JStr "3,7")) (Scenario.bot [] (JFun 0)),
     inr tt)
  /\ Bot._onEnterView {[ "ctid" := JStr "1173"; "clid" := JNum 42 ]}
       (Scenario.world (Scenario.reply_groups (JStr "3,7")) (Scenario.bot [] (JFun 0)))
     = (Scenario.world (Scenario.reply_groups (JStr "3,7")) (Scenario.bot [] (JFun 0)),
        inr tt).
Proof.
  apply (listeners_ignore_other_ctid
           (E := Scenario.env (Scenario.reply_groups (JStr "3,7"))) _ _ 1173);
    [reflexivity|discriminate].
Defined.

Lemma started_session_never_stops_witness :
  snd (Bot.running
         [ Bot.Notified (Bot.ClientMoved (Scenario.arrival 1173 42)); Bot.Tick ]
         (fst (Bot.start
                 (Scenario.world (Scenario.reply_groups (JStr "3,7")) Scenario.fresh))))
  = inr tt.
Proof.
  apply (started_session_never_stops
           (E := Scenario.env (Scenario.reply_groups (JStr "3,7")))).
  reflexivity.
Defined.

Lemma start_success_exchanges_witness :
  snd (Bot.start (Scenario.world (Scenario.reply_groups (JStr "3,7")) Scenario.fresh))
  = inr tt
  /\ Bot.whoami
       (Bot.this
          (fst (Bot.start
                  (Scenario.world (Scenario.reply_groups (JStr "3,7")) Scenario.fresh))))
     = Some {[ "client_id" := JNum 1; "client_servergroups" := JStr "3,7" ]}.
Proof.
  rewrite (start_success_exchanges
             (E := Scenario.env (Scenario.reply_groups (JStr "3,7")))
             (Scenario.world (Scenario.reply_groups (JStr "3,7")) Scenario.fresh)
             {[ "client_id" := JNum 1; "client_servergroups" := JStr "3,7" ]}
             _ _ eq_refl eq_refl (ex_intro _ _ eq_refl)).
  split; reflexivity.
Defined.

Lemma configure_depends_on_last_valid_calls_witness :
  Factory.configure (rev Scenario.calls) = Factory.configure Scenario.calls.
Proof.
  apply configure_depends_on_last_valid_calls. intros []; reflexivity.
Defined.

Lemma different_setters_commute_witness :
  Factory.configure
    (take 1 Scenario.calls
       ++ Factory.WithConnectionInfo (JStr "uhc.gg") (JNum 10011) (JNum 9989)
       :: Factory.WithAllowedGroups (Some []) :: drop 3 Scenario.calls)
  = Factory.configure Scenario.calls.
Proof.
  apply (different_setters_commute (take 1 Scenario.calls) (drop 3 Scenario.calls)).
  discriminate.
Defined.

Lemma dropped_calls_witness :
  Factory.configure
    (take 2 Scenario.calls_with_groups
       ++ Factory.InChannel (JStr "1173") :: drop 3 Scenario.calls_with_groups)
  = Factory.configure
      (take 2 Scenario.calls_with_groups ++ drop 3 Scenario.calls_with_groups)
  /\ Factory.configure
       (Scenario.calls ++ Factory.InChannel (JNum 7) :: Factory.InChannel (JNum 8) :: [])
     = Factory.configure (Scenario.calls ++ Factory.InChannel (JNum 8) :: []).
Proof.
  split.
  - apply (proj1 (dropped_calls _ _ _ (Factory.InChannel JUndefined))). reflexivity.
  - apply (proj2 (dropped_calls _ _ _ _)); reflexivity.
Defined.

Lemma build_reports_first_missing_witness :
  Factory.build (Factory.configure (drop 3 Scenario.calls))
  = (Factory.configure (drop 3 Scenario.calls), inl (Error "Missing credentials")).
Proof.
  apply (build_reports_first_missing (drop 3 Scenario.calls) Factory.SCredentials).
  reflexivity.
Defined.


Lemma built_allow_list_never_grants_witness :
  snd (Bot._hasPermission (JNum 42)
         (Scenario.world (Scenario.reply_groups (JStr "5,7"))
            (Bot.new {| username := JStr "serveradmin"; password := JStr "password";
                        botName := JStr "TEST" |}
                     {| address := JStr "uhc.gg"; queryPort := JNum 10011;
                        serverPort := JNum 9989 |}
                     (JNum 1173) {| success := JFun 0; noPerms := JFun 1 |}
                     [JNum 5; JNum 7])))
  <> inr true.
Proof.
  apply (built_allow_list_never_grants Scenario.calls_with_groups
           (Factory.configure Scenario.calls_with_groups)
           (Bot.new {| username := JStr "serveradmin"; password := JStr "password";
                       botName := JStr "TEST" |}
                    {| address := JStr "uhc.gg"; queryPort := JNum 10011;
                       serverPort := JNum 9989 |}
                    (JNum 1173) {| success := JFun 0; noPerms := JFun 1 |}
                    [JNum 5; JNum 7])
           (E := Scenario.env (Scenario.reply_groups (JStr "5,7"))));
    [reflexivity|discriminate|reflexivity].
Defined.

(** ** What the setters accept *)

Section ValidationFacts.

Import Factory.






End ValidationFacts.

Section EnterViewFacts.

Import Bot.

Context {E : Environment}.

(** X22. When the kick of an enter-view event fails, the promise the
    listener returns rejects with the error of the query client; the
    emitter drops it: the only effects are the request and its answer,
    nothing reaches [console.error], and the loop goes on. *)
Theorem enter_view_kick_failure_is_dropped
    (viewEvent : gmap string JsValue) (w : World E) e rest :
  strict_eq (prop viewEvent "ctid") (_channelId (this w)) = true ->
  let kick :=
    request_of "clientkick"
      {[ "clid" := prop viewEvent "clid"; "reasonid" := JNum 4;
         "reasonmsg" := JStr "Channel not allowed" ]} [] in
  snd (respond E (net w) kick) = inl e ->
  _onEnterView viewEvent w = (exchanged w kick, inl e)
  /\ emit (ClientEnterView viewEvent) w = (exchanged w kick, inr tt)
  /\ trace (exchanged w kick) = trace w ++ [Sent kick; Replied (inl e)]
  /\ eventLoop (ClientEnterView viewEvent :: rest) w = eventLoop rest (exchanged w kick).
Proof.
  intros Hc kick He.
  assert (_onEnterView viewEvent w = (exchanged w kick, inl e)) as Hrun.
  { unfold _onEnterView, self, mbind, M_bind. rewrite Hc. simpl.
    rewrite kickClient_run, _send_run. fold kick. now rewrite He. }
  split; [exact Hrun|]. split; [|split].
  - simpl. unfold detach. now rewrite Hrun.
  - simpl. now rewrite He.
  - simpl. unfold mbind at 1, M_bind at 1. unfold detach. now rewrite Hrun.
Qed.

End EnterViewFacts.

Lemma enter_view_kick_failure_is_dropped_witness :
  Bot.eventLoop
    [ Bot.ClientEnterView (Scenario.arrival 1173 42);
      Bot.ClientEnterView (Scenario.arrival 7 43) ]
    (Scenario.world Scenario.reply_no_kick (Scenario.bot [] (JFun 0)))
  = (@Bot.Build_World (Scenario.env Scenario.reply_no_kick)
       (Scenario.bot [] (JFun 0)) tt
       [ Bot.Sent
           (Bot.request_of "clientkick"
              {[ "clid" := JNum 42; "reasonid" := JNum 4;
                 "reasonmsg" := JStr "Channel not allowed" ]} []);
         Bot.Replied (inl (QueryError 2568 "insufficient client permissions")) ],
     inr tt).
Proof.
  destruct (enter_view_kick_failure_is_dropped
              (E := Scenario.env Scenario.reply_no_kick)
              (Scenario.arrival 1173 42)
              (Scenario.world Scenario.reply_no_kick (Scenario.bot [] (JFun 0)))
              (QueryError 2568 "insufficient client permissions")
              [Bot.ClientEnterView (Scenario.arrival 7 43)])
    as (_ & _ & _ & ->); reflexivity.
Defined.
